(** * Learning-rate scaling for SGD under u-muP

    A shallow embedding of the code cells of [analysis/sgd_scaling.ipynb]:
    the group builder [gen_param_groups] (cell 8), the role scale function
    [lr_scale_func_sgd] and the [SGD] wrapper (cell 16).

    Python numbers are kept abstract behind the interface [PyNum]; every
    general theorem therefore holds for any arithmetic, IEEE doubles
    included.  Concrete scenarios are evaluated over the real numbers. *)

From Stdlib Require Import ZArith String List Reals Lra.
From stdpp Require Import base option list strings gmap.


(** ** Exceptions and the error monad *)

Inductive exn : Type :=
| AssertionError (msg : string)
| AttributeError (attr : string)
| IndexError
| ZeroDivisionError
| ValueError (msg : string).

Inductive result (A : Type) : Type :=
| Ok (a : A)
| Raise (e : exn).

Arguments Ok {A} a.
Arguments Raise {A} e.

#[global] Instance result_ret : MRet result := λ A, @Ok A.

#[global] Instance result_bind : MBind result :=
  λ A B f m, match m with Ok a => f a | Raise e => Raise e end.

#[global] Instance result_fmap : FMap result :=
  λ A B f m, match m with Ok a => Ok (f a) | Raise e => Raise e end.

Definition is_Ok {A} (r : result A) : Prop := ∃ a, r = Ok a.
Definition is_Raise {A} (r : result A) : Prop := ∃ e, r = Raise e.

(** ** Python numbers

    [of_int] is an [int] meeting a float operation, [float_half] and
    [float_neg_half] are the literals [0.5] and [-0.5], [py_mul] is [*] and
    [py_pow] is [**], which raises on [0 ** -0.5]. *)

Class PyNum (num : Type) : Type := {
  of_int : Z → num;
  float_half : num;
  float_neg_half : num;
  py_mul : num → num → num;
  py_pow : num → num → result num
}.

(** ** Parameters

    A [torch] parameter as the code reads it: its [shape] (a tuple of
    ints) and the role tag [mup_type]; [None] stands for a tensor that
    carries no tag.  [obj_id] is the identity of the Python object. *)

Record Param : Type := mkParam {
  obj_id : nat;
  shape : list Z;
  mup_type : option string;
  (* Modelled from the spec: the depth index read by the library's
     depth scale function, which is not part of the notebook. *)
  depth_index : Z
}.

#[global] Instance Param_eq_dec : EqDecision Param.
Proof. solve_decision. Defined.

(** [param.mup_type] *)
Definition getattr_mup_type (param : Param) : result string :=
  match mup_type param with
  | Some role => Ok role
  | None => Raise (AttributeError "mup_type")
  end.

(** [param.shape[i]] *)
Definition shape_getitem (param : Param) (i : nat) : result Z :=
  match shape param !! i with
  | Some n => Ok n
  | None => Raise IndexError
  end.

(** [x in ("a", "b", ...)] on strings *)
Definition str_in (x : string) (xs : list string) : bool :=
  existsb (String.eqb x) xs.

(** The values stored in a parameter-group dict. *)
Inductive value (num : Type) : Type :=
| VParams (ps : list Param)
| VNum (x : num).

Arguments VParams {num} ps.
Arguments VNum {num} x.

Section ScaleFunctions.
Context {num : Type} `{PyNum num}.

(** The two helpers of [uu.optim] that the notebook calls; their code is
    in the library, so they are taken as parameters. *)
Variable lr_scale_for_depth : Param → result num.
Variable _get_fan_in : Param → result Z.

(** Cell 16, [lr_scale_func_sgd_inner]. *)
Definition lr_scale_func_sgd_inner
    (readout_constraint : option string) (param : Param) : result num :=
  scale ← lr_scale_for_depth param;
  role ← getattr_mup_type param;
  if str_in role ["bias"; "norm"] then
    n ← shape_getitem param 0;
    Ok (py_mul scale (of_int n))
  else if String.eqb role "weight" then
    match readout_constraint with
    | None =>
        fan_in ← _get_fan_in param;
        x ← py_pow (of_int fan_in) float_neg_half;
        Ok (py_mul scale x)
    | Some c =>
        if String.eqb c "to_output_scale" then
          fan_in ← _get_fan_in param;
          x ← py_pow (of_int fan_in) float_half;
          Ok (py_mul scale x)
        else
          Raise (AssertionError ("Unhandled readout constraint: " +:+ c))
    end
  else if String.eqb role "output" then
    Ok scale
  else
    Raise (AssertionError ("Unexpected mup_type " +:+ role)).

(** Cell 16, [lr_scale_func_sgd]: the closure over the constraint. *)
Definition lr_scale_func_sgd (readout_constraint : option string)
    : Param → result num :=
  lr_scale_func_sgd_inner readout_constraint.

(** Cell 8, [gen_param_groups]: [model] is [model.parameters()] in
    declaration order; the loop appends one dict per zipped pair. *)
Definition gen_param_groups
    (model : list Param) (base_lr : num) (lr_mods : list num)
    : list (gmap string (value num)) :=
  foldl
    (λ parameter_groups '(params, lr_mod),
       parameter_groups ++
         [ {[ "params" := VParams [params];
              "lr" := VNum (py_mul base_lr lr_mod) ]} ])
    [] (zip model lr_mods).

(** Modelled from the spec: [uu.optim.scaled_parameters], the group
    builder of section 4.7 (its code is in the library, the notebook only
    calls it).  A parameter is recognized when it carries one of the four
    roles; an unrecognized one fails the construction unless the caller
    allows it, and then keeps multiplier 1.  Weight decay stays at its
    nominal value when independent and follows the multiplier when not. *)
Definition recognized (param : Param) : bool :=
  match mup_type param with
  | Some role => str_in role ["weight"; "bias"; "norm"; "output"]
  | None => false
  end.

(** Modelled from the spec: the group that [scaled_parameters] emits for
    one parameter (sections 4.1, 4.6 and 4.7). *)
Definition scaled_group
    (lr_scale_func : Param → result num) (lr weight_decay : num)
    (independent_weight_decay allow_non_unit_scaling_params : bool)
    (param : Param) : result (gmap string (value num)) :=
  if recognized param then
    mult ← lr_scale_func param;
    Ok {[ "params" := VParams [param];
          "lr" := VNum (py_mul lr mult);
          "weight_decay" :=
            VNum (if independent_weight_decay then weight_decay
                  else py_mul weight_decay mult) ]}
  else if allow_non_unit_scaling_params then
    Ok {[ "params" := VParams [param];
          "lr" := VNum (py_mul lr (of_int 1));
          "weight_decay" := VNum weight_decay ]}
  else
    Raise (ValueError "parameter without a recognized role").

(** Modelled from the spec: [scaled_parameters] itself, one group per
    parameter, failing at the first parameter that fails. *)
Definition scaled_parameters
    (params : list Param) (lr_scale_func : Param → result num)
    (lr weight_decay : num)
    (independent_weight_decay allow_non_unit_scaling_params : bool)
    : result (list (gmap string (value num))) :=
  mapM (scaled_group lr_scale_func lr weight_decay
          independent_weight_decay allow_non_unit_scaling_params) params.

(** Cell 16, [SGD.__init__]: the groups handed to [torch.optim.SGD]. *)
Definition SGD_init
    (params : list Param) (lr weight_decay : num)
    (independent_weight_decay allow_non_unit_scaling_params : bool)
    (readout_constraint : option string)
    : result (list (gmap string (value num))) :=
  scaled_parameters params (lr_scale_func_sgd readout_constraint)
    lr weight_decay independent_weight_decay allow_non_unit_scaling_params.

(** Reading a group back: its parameter list and its hyperparameters. *)
Definition group_params (g : gmap string (value num)) : list Param :=
  match g !! "params" with
  | Some (VParams ps) => ps
  | _ => []
  end.

Definition group_hparams (g : gmap string (value num))
    : option (value num) * option (value num) :=
  (g !! "lr", g !! "weight_decay").

(** The weight-role multiplier as section 4.3 of the specification words
    it: exponent [-0.5] under [to_output_scale], [+0.5] under [None]. *)
Definition spec_weight_multiplier
    (readout_constraint : option string) (scale : num) (fan_in : Z)
    : result num :=
  match readout_constraint with
  | None =>
      x ← py_pow (of_int fan_in) float_half; Ok (py_mul scale x)
  | Some c =>
      if String.eqb c "to_output_scale" then
        x ← py_pow (of_int fan_in) float_neg_half; Ok (py_mul scale x)
      else
        Raise (AssertionError ("Unhandled readout constraint: " +:+ c))
  end.

(** Modelled from the spec: a depth law for the concrete scenarios, the
    library's own being absent: identity at depth index 0 and the inverse
    square root of the index elsewhere (sections 4.2 and 8). *)
Definition ref_lr_scale_for_depth (param : Param) : result num :=
  if (depth_index param =? 0)%Z then Ok (of_int 1)
  else py_pow (of_int (depth_index param)) float_neg_half.

End ScaleFunctions.

(** Two parameters with the same descriptor: role, shape and depth index. *)
Definition same_descriptor (p q : Param) : Prop :=
  mup_type p = mup_type q ∧ shape p = shape q ∧ depth_index p = depth_index q.

(** Modelled from the spec: the fan-in of a two-dimensional weight for the
    concrete scenarios, the library's [_get_fan_in] being absent: the
    contracted dimension, [shape[1]] as in cell 3; other shapes are fatal
    (section 7). *)
Definition ref_get_fan_in (param : Param) : result Z :=
  match shape param with
  | [_; n] => Ok n
  | _ => Raise (ValueError "no fan-in for this shape")
  end.

(** ** Real arithmetic as an interpretation of Python numbers

    [x ** y] is [Rpower] on a positive base; a zero base raises on a
    negative exponent.  A negative base has no real power for the
    exponents used here (Python answers with a complex number); tensor
    dimensions are never negative. *)
Definition R_pow (x y : R) : result R :=
  if Rlt_dec 0 x then Ok (Rpower x y)
  else if Rlt_dec x 0 then Raise (ValueError "complex power")
  else if Rlt_dec y 0 then Raise ZeroDivisionError
  else if Rlt_dec 0 y then Ok 0%R
  else Ok 1%R.

#[global] Instance R_PyNum : PyNum R := {
  of_int := IZR;
  float_half := (/ 2)%R;
  float_neg_half := (- / 2)%R;
  py_mul := Rmult;
  py_pow := R_pow
}.

(** ** The reference configuration of the notebook

    [ModelC(d_inp=5, d_hid=7, d_out=11)]: two [uu.Linear] weights and the
    readout, in declaration order, and a few more parameters for the
    other roles.  A [Linear(fan_in, fan_out)] weight has shape
    [(fan_out, fan_in)]. *)
Definition lin1 : Param := mkParam 0 [7; 5]%Z (Some "weight") 0.
Definition lin2 : Param := mkParam 1 [7; 7]%Z (Some "weight") 0.
Definition readout : Param := mkParam 2 [11; 7]%Z (Some "output") 0.
Definition model_c : list Param := [lin1; lin2; readout].

(** The same network rebuilt: fresh objects, same descriptors. *)
Definition model_c2 : list Param :=
  [mkParam 10 [7; 5]%Z (Some "weight") 0;
   mkParam 11 [7; 7]%Z (Some "weight") 0;
   mkParam 12 [11; 7]%Z (Some "output") 0].

(** A weight of [Linear(1, 7)], a bias, a norm gain, a tensor with an
    unknown role and one with no role tag. *)
Definition unit_fan_in_weight : Param := mkParam 3 [7; 1]%Z (Some "weight") 0.
Definition bias7 : Param := mkParam 4 [7]%Z (Some "bias") 0.
Definition norm7 : Param := mkParam 5 [7]%Z (Some "norm") 0.
Definition stray : Param := mkParam 6 [7; 7]%Z (Some "embedding") 0.
Definition untagged : Param := mkParam 7 [7; 7]%Z None 0.

(** Over the reals: [base_lr = 1e-1 * b**0.5] with [b = 3] (cells 9, 12
    and 14), [base_lr = 1e-1] (cell 17), and the hand-written multiplier
    tuples of cell 9, [(d_hid * d_inp**0.5, d_hid**0.5, 1)], of cell 12,
    [(d_inp**0.5 * d_hid, d_hid**0.5, 1)], and of cell 14,
    [(d_inp**0.5 * d_out**0.5, d_hid**-0.5 * d_out**0.5, 1)]. *)
Definition base_lr_b : R := (1 / 10 * Rpower 3 (/ 2))%R.
Definition base_lr_c : R := (1 / 10)%R.
Definition lr_mods_b : list R :=
  [(7 * Rpower 5 (/ 2))%R; Rpower 7 (/ 2); 1%R].
Definition lr_mods_c : list R :=
  [(Rpower 5 (/ 2) * 7)%R; Rpower 7 (/ 2); 1%R].
Definition lr_mods_c2 : list R :=
  [(Rpower 5 (/ 2) * Rpower 11 (/ 2))%R;
   (Rpower 7 (- / 2) * Rpower 11 (/ 2))%R; 1%R].

(** ** The multiplier tuples of the notebook, for any dimensions

    The tuples of cells 12, 14 and 19 and the base learning rates of
    cells 14 and 19, as expressions in [d_inp], [d_hid], [d_out] and the
    batch size [b], evaluated over the reals. *)
Definition cell12_lr_mods (d_inp d_hid d_out : Z) : result (list R) :=
  a ← R_pow (IZR d_inp) (/ 2);
  b ← R_pow (IZR d_hid) (/ 2);
  Ok [(a * IZR d_hid)%R; b; 1%R].

Definition cell14_lr_mods (d_inp d_hid d_out : Z) : result (list R) :=
  a ← R_pow (IZR d_inp) (/ 2);
  a' ← R_pow (IZR d_out) (/ 2);
  b ← R_pow (IZR d_hid) (- / 2);
  b' ← R_pow (IZR d_out) (/ 2);
  Ok [(a * a')%R; (b * b')%R; 1%R].




(** ** The dev task launcher ([dev])

    What a run of the script does to the outside world is a trace of
    events: lines printed, subprocesses started with [subprocess.call]
    (their argument vector, and the environment when one is passed) and
    shell pipelines started with [subprocess.run(..., shell=True)].  A
    script either finishes, leaves through [sys.exit], or dies of an
    exception raised by the operating system call. *)
Inductive event : Type :=
| Stderr (line : string)
| Stdout (line : string)
| Call (argv : list string) (env : option (gmap string string))
| Shell (command : string).

Inductive os_result (A : Type) : Type :=
| Returned (a : A)
| OSFailed (e : string).

Arguments Returned {A} a.
Arguments OSFailed {A} e.

Inductive outcome (A : Type) : Type :=
| Done (a : A)
| SysExit (code : Z)
| Uncaught (e : string).

Arguments Done {A} a.
Arguments SysExit {A} code.
Arguments Uncaught {A} e.

Definition script (A : Type) : Type := list event → outcome A * list event.

#[global] Instance script_ret : MRet script := λ A a t, (Done a, t).

#[global] Instance script_bind : MBind script :=
  λ A B f m t,
    match m t with
    | (Done a, t') => f a t'
    | (SysExit code, t') => (SysExit code, t')
    | (Uncaught e, t') => (Uncaught e, t')
    end.

Definition print_stderr (line : string) : script unit :=
  λ t, (Done (), t ++ [Stderr line]).

Definition print_stdout (line : string) : script unit :=
  λ t, (Done (), t ++ [Stdout line]).

Definition sys_exit {A} (code : Z) : script A := λ t, (SysExit code, t).

Fixpoint for_each {A} (xs : list A) (body : A → script unit) : script unit :=
  match xs with
  | [] => mret ()
  | x :: xs' => body x;; for_each xs' body
  end.

(** The newline character and [s.replace("\n", "\n   ")]. *)
Definition newline_char : Ascii.ascii := Ascii.ascii_of_nat 10.
Definition nl : string := String newline_char "".

Fixpoint indent_newlines (s : string) : string :=
  match s with
  | EmptyString => EmptyString
  | String c s' =>
      if Ascii.eqb c newline_char then String c ("   " +:+ indent_newlines s')
      else String c (indent_newlines s')
  end.

(** Truth value of an [Optional[str]]: [None] and [""] are false. *)
Definition truthy (s : option string) : bool :=
  match s with
  | Some s => negb (String.eqb s "")
  | None => false
  end.

Definition PYTHON_ROOTS : list string := ["unit_scaling"; "dev"; "examples"].

Section Launcher.

(** The world the script runs in: the working directory, the
    environment, the exit status of a subprocess and the decoded output
    of a shell pipeline (both may depend on what happened before), and
    three library computations left abstract: [str.strip], the set of
    comment prefixes of the offending files in the order the set is
    iterated, and the year of the clock as text. *)
Variable getcwd : string.
Variable os_environ : gmap string string.
Variable os_call : list event → list string → os_result Z.
Variable os_shell : list event → string → os_result string.
Variable py_strip : string → string.
Variable comment_prefixes : string → list string.
Variable this_year : string.

Definition subprocess_call (argv : list string)
    (env : option (gmap string string)) : script Z :=
  λ t, (match os_call t argv with
        | Returned code => Done code
        | OSFailed e => Uncaught e
        end, t ++ [Call argv env]).

Definition subprocess_run_shell (command : string) : script string :=
  λ t, (match os_shell t command with
        | Returned out => Done out
        | OSFailed e => Uncaught e
        end, t ++ [Shell command]).

(** [run(command)]: the arguments are strings or [None]. *)
Definition run (command : list (option string)) : script unit :=
  let cmd := omap (λ arg, arg) command in
  print_stderr ("$ " +:+ String.concat " " cmd);;
  let environ :=
    <[ "PYTHONPATH" :=
         getcwd +:+ ":" +:+ default "" (os_environ !! "PYTHONPATH") ]>
      os_environ in
  exit_code ← subprocess_call cmd (Some environ);
  if (exit_code =? 0)%Z then mret () else sys_exit exit_code.

Definition tests (filter : option string) : script unit :=
  run ([Some "python"; Some "-m"; Some "pytest"; Some "unit_scaling";
        if truthy filter then None else Some "--cov=unit_scaling"]
       ++ (if truthy filter then [Some "-k"; filter] else [])).

Definition python (commands : list string) : script unit :=
  run (Some "python" :: (Some <$> commands)).

Definition lint : script unit :=
  run ([Some "python"; Some "-m"; Some "flake8"] ++ (Some <$> PYTHON_ROOTS));;
  run ([Some "python"; Some "-m"; Some "mypy"] ++ (Some <$> PYTHON_ROOTS)).

Definition format (check : bool) : script unit :=
  run ([Some "python"; Some "-m"; Some "black";
        if check then Some "--check" else None]
       ++ (Some <$> PYTHON_ROOTS));;
  run ([Some "python"; Some "-m"; Some "isort";
        if check then Some "--check" else None]
       ++ (Some <$> PYTHON_ROOTS)).

Definition copyright_command : string :=
  "find " +:+ String.concat " " PYTHON_ROOTS +:+
  " -type f -not -name *.pyc -not -name *.json" +:+
  " -not -name .gitignore -not -name *_version.py" +:+
  " | xargs grep -L 'Copyright (c) 202. Graphcore Ltd[.] All rights reserved[.]'".

Definition copyright : script unit :=
  print_stderr ("$ " +:+ copyright_command);;
  raw ← subprocess_run_shell copyright_command;
  let output := py_strip raw in
  if String.eqb output "" then mret ()
  else
    print_stderr ("Error - failed copyright header check in:" +:+ nl +:+
                  "   " +:+ indent_newlines output);;
    print_stdout "Template(s):";;
    for_each (comment_prefixes output)
      (λ prefix,
         print_stderr (prefix +:+ " Copyright (c) " +:+ this_year +:+
                       " Graphcore Ltd. All rights reserved."));;
    sys_exit 1.

Definition doc : script unit :=
  subprocess_call ["rm"; "-r"; "docs/generated"; "docs/_build"] None;;
  run [Some "make"; Some "-C"; Some "docs"; Some "html"].

Definition ci (skip : list string) : script unit :=
  (if negb (str_in "tests" skip) then tests None else mret ());;
  (if negb (str_in "lint" skip) then lint else mret ());;
  (if negb (str_in "format" skip) then format true else mret ());;
  (if negb (str_in "copyright" skip) then copyright else mret ());;
  (if negb (str_in "doc" skip) then doc else mret ()).

End Launcher.

(** The values [--skip] accepts on the command line (the [choices] of the
    decorator of [ci]). *)
Definition ci_skip_choices : list string :=
  ["tests"; "lint"; "format"; "copyright"].

(** What a trace did to the system: the subprocesses and pipelines it
    started, in order. *)
Inductive action : Type :=
| ACall (argv : list string)
| AShell (command : string).

Definition action_of (e : event) : option action :=
  match e with
  | Call argv _ => Some (ACall argv)
  | Shell command => Some (AShell command)
  | _ => None
  end.

Definition actions (t : list event) : list action := omap action_of t.

(** A script follows a plan when, from any trace, it only appends
    events, the actions it adds are a prefix of the plan, and all of the
    plan when it finishes. *)
Definition follows {A} (m : script A) (plan : list action) : Prop :=
  ∀ t, ∃ new,
    (m t).2 = t ++ new ∧
    actions new `prefix_of` plan ∧
    (∀ a, (m t).1 = Done a → actions new = plan).

(** The event that made a script leave with status [code]: a subprocess
    that returned [code], or the copyright pipeline printing something
    (status 1). *)
Definition culprit
    (os_call : list event → list string → os_result Z)
    (os_shell : list event → string → os_result string)
    (py_strip : string → string)
    (before : list event) (e : event) (code : Z) : Prop :=
  match e with
  | Call argv _ => os_call before argv = Returned code
  | Shell command =>
      code = 1%Z ∧
      ∃ out, os_shell before command = Returned out ∧ py_strip out ≠ ""
  | _ => False
  end.

(** A script stops at the first failure when leaving with [code] means
    that [code] is not 0 and the last action it started is the culprit. *)
Definition stops_at_failure
    (os_call : list event → list string → os_result Z)
    (os_shell : list event → string → os_result string)
    (py_strip : string → string)
    {A} (m : script A) : Prop :=
  ∀ t code, (m t).1 = SysExit code →
    code ≠ 0%Z ∧
    ∃ before e rest,
      (m t).2 = before ++ e :: rest ∧ actions rest = [] ∧
      culprit os_call os_shell py_strip before e code.

(** A world in which every tool succeeds except [rm], no header is
    missing, and [PYTHONPATH] is not set. *)
Definition calm_call (t : list event) (argv : list string) : os_result Z :=
  match argv with
  | "rm" :: _ => Returned 1%Z
  | _ => Returned 0%Z
  end.

Definition calm_shell (t : list event) (command : string)
    : os_result string :=
  Returned "".


(** The commands of each task, and of [ci] for a given skip list. *)
Definition pytest_argv (filter : option string) : list string :=
  ["python"; "-m"; "pytest"; "unit_scaling"] ++
  match filter with
  | Some f => if String.eqb f "" then ["--cov=unit_scaling"] else ["-k"; f]
  | None => ["--cov=unit_scaling"]
  end.

Definition lint_plan : list action :=
  [ACall (["python"; "-m"; "flake8"] ++ PYTHON_ROOTS);
   ACall (["python"; "-m"; "mypy"] ++ PYTHON_ROOTS)].

Definition format_plan (check : bool) : list action :=
  [ACall (["python"; "-m"; "black"] ++ (if check then ["--check"] else [])
          ++ PYTHON_ROOTS);
   ACall (["python"; "-m"; "isort"] ++ (if check then ["--check"] else [])
          ++ PYTHON_ROOTS)].

Definition doc_plan : list action :=
  [ACall ["rm"; "-r"; "docs/generated"; "docs/_build"];
   ACall ["make"; "-C"; "docs"; "html"]].

Definition ci_plan (skip : list string) : list action :=
  (if bool_decide ("tests" ∈ skip) then [] else [ACall (pytest_argv None)])
  ++ (if bool_decide ("lint" ∈ skip) then [] else lint_plan)
  ++ (if bool_decide ("format" ∈ skip) then [] else format_plan true)
  ++ (if bool_decide ("copyright" ∈ skip) then []
      else [AShell copyright_command])
  ++ (if bool_decide ("doc" ∈ skip) then [] else doc_plan).

(** A bias stored as a matrix and a weight of [Linear(0, 7)]. *)
Definition bias_matrix : Param := mkParam 8 [3; 7]%Z (Some "bias") 0.
Definition empty_fan_in_weight : Param :=
  mkParam 9 [7; 0]%Z (Some "weight") 0.

(** A fan-in helper that always fails. *)
Definition failing_fan_in (param : Param) : result Z :=
  Raise (ValueError "no fan-in").

(** The scale function of the reference configuration. *)
Abbreviation ref_scale_fn :=
  (lr_scale_func_sgd (num:=R) ref_lr_scale_for_depth ref_get_fan_in).

(** * Properties of the role scale function *)

Lemma Ok_not_Raise {A} (r : result A) : is_Raise r → ∀ a, r ≠ Ok a.
Proof. intros [e ->] a. discriminate. Qed.

Lemma eqb_of_neq (s t : string) : s ≠ t → String.eqb s t = false.
Proof. intros Hne. by apply String.eqb_neq. Qed.

Ltac unfold_scale :=
  unfold lr_scale_func_sgd, lr_scale_func_sgd_inner,
    getattr_mup_type, shape_getitem, str_in.

Section ScaleFunctionFacts.
Context {num : Type} `{PyNum num}.
Variable lr_scale_for_depth : Param → result num.
Variable _get_fan_in : Param → result Z.

Abbreviation scale_fn := (lr_scale_func_sgd lr_scale_for_depth _get_fan_in).

(** A failing depth helper fails the whole call, whatever the role. *)
Lemma scale_fn_depth_raise rc p e :
  lr_scale_for_depth p = Raise e → scale_fn rc p = Raise e.
Proof. intros Hd. unfold_scale. by rewrite Hd. Qed.

(** The weight branch, for each constraint the code handles. *)
Lemma scale_fn_weight_None p s :
  mup_type p = Some "weight" →
  lr_scale_for_depth p = Ok s →
  scale_fn None p =
    (fan_in ← _get_fan_in p;
     x ← py_pow (of_int fan_in) float_neg_half;
     Ok (py_mul s x)).
Proof. intros Hr Hd. unfold_scale. by rewrite Hd, Hr. Qed.

Lemma scale_fn_weight_to_output_scale p s :
  mup_type p = Some "weight" →
  lr_scale_for_depth p = Ok s →
  scale_fn (Some "to_output_scale") p =
    (fan_in ← _get_fan_in p;
     x ← py_pow (of_int fan_in) float_half;
     Ok (py_mul s x)).
Proof. intros Hr Hd. unfold_scale. by rewrite Hd, Hr. Qed.

Lemma scale_fn_weight_unhandled p s c :
  mup_type p = Some "weight" →
  lr_scale_for_depth p = Ok s →
  c ≠ "to_output_scale" →
  scale_fn (Some c) p =
    Raise (AssertionError ("Unhandled readout constraint: " +:+ c)).
Proof.
  intros Hr Hd Hc. unfold_scale. rewrite Hd, Hr. simpl.
  by rewrite (eqb_of_neq _ _ Hc).
Qed.

(** Outside the weight branch the constraint is never read. *)
Lemma scale_fn_constraint_unread p rc rc' :
  mup_type p ≠ Some "weight" → scale_fn rc p = scale_fn rc' p.
Proof.
  intros Hr. unfold_scale.
  destruct (lr_scale_for_depth p) as [s|e]; [|done].
  destruct (mup_type p) as [role|]; [|done]. simpl.
  destruct (String.eqb role "bias"); [done|].
  destruct (String.eqb role "norm"); [done|]. simpl.
  destruct (String.eqb_spec role "weight") as [->|_]; [done|].
  done.
Qed.

(** C1, as amended: for a weight-role parameter the multiplier is
    [depth_scale * fan_in ** e] with [e = -0.5] when the readout
    constraint is [None] and [e = +0.5] when it is [to_output_scale]. *)
Theorem weight_multiplier_exponent p s n :
  mup_type p = Some "weight" →
  lr_scale_for_depth p = Ok s →
  _get_fan_in p = Ok n →
  lr_scale_func_sgd lr_scale_for_depth _get_fan_in None p =
    (x ← py_pow (of_int n) float_neg_half; Ok (py_mul s x)) ∧
  lr_scale_func_sgd lr_scale_for_depth _get_fan_in
    (Some "to_output_scale") p =
    (x ← py_pow (of_int n) float_half; Ok (py_mul s x)).
Proof.
  intros Hr Hd Hf. split.
  - rewrite (scale_fn_weight_None p s Hr Hd). by rewrite Hf.
  - rewrite (scale_fn_weight_to_output_scale p s Hr Hd). by rewrite Hf.
Qed.

(** C3: a bias- or norm-role parameter of shape [(n,)] gets
    [depth_scale * n], its element count along its only dimension,
    whatever the readout constraint. *)
Theorem bias_norm_multiplier rc p role s n :
  mup_type p = Some role →
  role = "bias" ∨ role = "norm" →
  lr_scale_for_depth p = Ok s →
  shape p = [n] →
  lr_scale_func_sgd lr_scale_for_depth _get_fan_in rc p =
    Ok (py_mul s (of_int n)).
Proof.
  intros Hr Hrole Hd Hs. unfold_scale. rewrite Hd, Hr, Hs.
  by destruct Hrole as [-> | ->].
Qed.

(** C4: an output-role parameter gets exactly its depth scale: the
    fan-in helper, the shape and the readout constraint are not read. *)
Theorem output_multiplier rc p s :
  mup_type p = Some "output" →
  lr_scale_for_depth p = Ok s →
  lr_scale_func_sgd lr_scale_for_depth _get_fan_in rc p = Ok s.
Proof. intros Hr Hd. unfold_scale. by rewrite Hd, Hr. Qed.

(** C7: a parameter whose role is none of weight, bias, norm, output
    makes the scale function raise; no multiplier is returned, and when
    the depth helper succeeds the error is the assertion on the role. *)
Theorem unexpected_role_raises rc p :
  (∀ role, mup_type p = Some role →
           role ∉ ["weight"; "bias"; "norm"; "output"]) →
  is_Raise (lr_scale_func_sgd lr_scale_for_depth _get_fan_in rc p) ∧
  (∀ m, lr_scale_func_sgd lr_scale_for_depth _get_fan_in rc p ≠ Ok m) ∧
  (∀ s role, lr_scale_for_depth p = Ok s → mup_type p = Some role →
     lr_scale_func_sgd lr_scale_for_depth _get_fan_in rc p =
       Raise (AssertionError ("Unexpected mup_type " +:+ role))).
Proof.
  intros Hrole.
  assert (Hcase : ∀ s role, lr_scale_for_depth p = Ok s →
            mup_type p = Some role →
            scale_fn rc p =
              Raise (AssertionError ("Unexpected mup_type " +:+ role))).
  { intros s role Hd Hr. specialize (Hrole role Hr).
    rewrite !not_elem_of_cons in Hrole.
    destruct Hrole as (Hw & Hb & Hn & Ho & _).
    unfold_scale. rewrite Hd, Hr. simpl.
    by rewrite (eqb_of_neq _ _ Hw), (eqb_of_neq _ _ Hb),
      (eqb_of_neq _ _ Hn), (eqb_of_neq _ _ Ho). }
  assert (Hraise : is_Raise (scale_fn rc p)).
  { destruct (lr_scale_for_depth p) as [s|e] eqn:Hd.
    - destruct (mup_type p) as [role|] eqn:Hr.
      + eexists. by apply (Hcase s role).
      + exists (AttributeError "mup_type"). unfold_scale.
        by rewrite Hd, Hr.
    - exists e. by apply scale_fn_depth_raise. }
  split; [done|]. split; [by apply Ok_not_Raise | done].
Qed.

End ScaleFunctionFacts.

(** * Properties of the group builder [gen_param_groups] *)

Section GroupBuilderFacts.
Context {num : Type} `{PyNum num}.

Abbreviation group_of p x :=
  ({[ "params" := VParams [p]; "lr" := VNum x ]} : gmap string (value num)).

Lemma group_params_group_of (p : Param) (x : num) :
  group_params (group_of p x) = [p].
Proof. unfold group_params. by rewrite lookup_insert_eq. Qed.

Lemma group_hparams_group_of (p : Param) (x : num) :
  group_hparams (group_of p x) = (Some (VNum x), None).
Proof. unfold group_hparams. by simplify_map_eq. Qed.

(** The appending loop is a map over the zipped inputs. *)
Lemma foldl_snoc_pairs {A B C} (f : A → B → C) (l : list (A * B))
    (acc : list C) :
  foldl (λ acc '(a, b), acc ++ [f a b]) acc l =
    acc ++ ((λ ab, f ab.1 ab.2) <$> l).
Proof.
  revert acc. induction l as [|[a b] l IH]; intros acc; simpl.
  - by rewrite app_nil_r.
  - rewrite IH. by rewrite <- app_assoc.
Qed.

Lemma gen_param_groups_zip (model : list Param) (base_lr : num)
    (lr_mods : list num) :
  gen_param_groups model base_lr lr_mods =
    (λ pm, group_of pm.1 (py_mul base_lr pm.2)) <$> zip model lr_mods.
Proof.
  unfold gen_param_groups.
  by rewrite (foldl_snoc_pairs (λ p m, group_of p (py_mul base_lr m))).
Qed.

Lemma gen_param_groups_nil_l (base_lr : num) (lr_mods : list num) :
  gen_param_groups [] base_lr lr_mods = [].
Proof. by rewrite gen_param_groups_zip. Qed.

Lemma gen_param_groups_nil_r (model : list Param) (base_lr : num) :
  gen_param_groups model base_lr [] = [].
Proof. rewrite gen_param_groups_zip. by destruct model. Qed.

Lemma gen_param_groups_cons (p : Param) (model : list Param) (base_lr m : num)
    (lr_mods : list num) :
  gen_param_groups (p :: model) base_lr (m :: lr_mods) =
    group_of p (py_mul base_lr m) :: gen_param_groups model base_lr lr_mods.
Proof. by rewrite !gen_param_groups_zip. Qed.

Lemma gen_param_groups_length (model : list Param) (base_lr : num)
    (lr_mods : list num) :
  length (gen_param_groups model base_lr lr_mods) =
    min (length model) (length lr_mods).
Proof.
  revert lr_mods. induction model as [|p model IH]; intros [|m lr_mods].
  - by rewrite gen_param_groups_nil_l.
  - by rewrite gen_param_groups_nil_l.
  - by rewrite gen_param_groups_nil_r.
  - rewrite gen_param_groups_cons. simpl. by rewrite IH.
Qed.

Lemma gen_param_groups_lookup (model : list Param) (base_lr : num)
    (lr_mods : list num) (i : nat) (p : Param) (m : num) :
  model !! i = Some p → lr_mods !! i = Some m →
  gen_param_groups model base_lr lr_mods !! i =
    Some (group_of p (py_mul base_lr m)).
Proof.
  revert lr_mods i.
  induction model as [|q model IH]; intros [|k lr_mods] [|i]; try done.
  - intros [= ->] [= ->]. by rewrite gen_param_groups_cons.
  - simpl. intros Hp Hm. rewrite gen_param_groups_cons. simpl. by apply IH.
Qed.

(** The parameters that reach a group are the first [len(lr_mods)]. *)
Lemma gen_param_groups_params (model : list Param) (base_lr : num)
    (lr_mods : list num) :
  concat (group_params <$> gen_param_groups model base_lr lr_mods) =
    take (length lr_mods) model.
Proof.
  revert lr_mods. induction model as [|p model IH]; intros [|m lr_mods].
  - by rewrite gen_param_groups_nil_l.
  - by rewrite gen_param_groups_nil_l.
  - by rewrite gen_param_groups_nil_r.
  - rewrite gen_param_groups_cons. simpl.
    rewrite group_params_group_of, IH. done.
Qed.

Lemma elem_of_group_concat (g : gmap string (value num))
    (gs : list (gmap string (value num))) (p : Param) :
  g ∈ gs → p ∈ group_params g → p ∈ concat (group_params <$> gs).
Proof.
  intros Hg Hp. induction gs as [|g' gs IH].
  - by apply elem_of_nil in Hg.
  - simpl. apply elem_of_app. apply elem_of_cons in Hg as [-> | Hg].
    + by left.
    + right. by apply IH.
Qed.

(** C6, as amended: with at least as many multipliers as parameters, the
    builder emits one singleton group per parameter, in order, with
    [lr = base_lr * mult] for the multiplier at the same position, and the
    groups' parameter lists concatenate to the input sequence: every
    parameter once, none dropped, whatever the roles. *)
Theorem groups_partition_parameters
    (model : list Param) (base_lr : num) (lr_mods : list num) :
  length model ≤ length lr_mods →
  length (gen_param_groups model base_lr lr_mods) = length model ∧
  (∀ i p, model !! i = Some p →
     ∃ m, lr_mods !! i = Some m ∧
          gen_param_groups model base_lr lr_mods !! i =
            Some (group_of p (py_mul base_lr m))) ∧
  concat (group_params <$> gen_param_groups model base_lr lr_mods) = model.
Proof.
  intros Hlen. split; [|split].
  - rewrite gen_param_groups_length. lia.
  - intros i p Hp.
    assert (Hi : i < length lr_mods).
    { apply lookup_lt_Some in Hp. lia. }
    destruct (lookup_lt_is_Some_2 lr_mods i Hi) as [m Hm].
    exists m. split; [done|]. by apply gen_param_groups_lookup.
  - rewrite gen_param_groups_params. by apply take_ge.
Qed.

(** C10: with fewer multipliers than parameters the builder still
    returns: it emits [len(lr_mods)] groups, for the leading parameters
    only; a trailing parameter is in no group, and the groups no longer
    cover the input sequence. *)
Theorem short_multiplier_list_drops_parameters
    (model : list Param) (base_lr : num) (lr_mods : list num) :
  length lr_mods < length model →
  length (gen_param_groups model base_lr lr_mods) = length lr_mods ∧
  concat (group_params <$> gen_param_groups model base_lr lr_mods) =
    take (length lr_mods) model ∧
  (NoDup model → ∀ i p, model !! i = Some p → length lr_mods ≤ i →
     ∀ g, g ∈ gen_param_groups model base_lr lr_mods →
          p ∉ group_params g) ∧
  concat (group_params <$> gen_param_groups model base_lr lr_mods) ≠ model.
Proof.
  intros Hlen. split; [|split; [|split]].
  - rewrite gen_param_groups_length. lia.
  - apply gen_param_groups_params.
  - intros Hnd i p Hp Hi g Hg Hin.
    pose proof (elem_of_group_concat g _ p Hg Hin) as Hc.
    rewrite gen_param_groups_params in Hc.
    apply elem_of_take in Hc as (j & Hj & Hlt).
    pose proof (NoDup_lookup _ _ _ _ Hnd Hp Hj). lia.
  - rewrite gen_param_groups_params. intros Heq.
    apply (f_equal length) in Heq. rewrite length_take in Heq. lia.
Qed.

End GroupBuilderFacts.

(** * Group construction through [SGD] *)

Section ConstructionFacts.
Context {num : Type} `{PyNum num}.
Variable lr_scale_for_depth : Param → result num.
Variable _get_fan_in : Param → result Z.

Abbreviation scale_fn := (lr_scale_func_sgd lr_scale_for_depth _get_fan_in).
Abbreviation construct :=
  (SGD_init lr_scale_for_depth _get_fan_in).

(** [mapM] stops at the first element that raises. *)
Lemma mapM_result_raise {A B} (f : A → result B) (l : list A) (x : A) :
  x ∈ l → is_Raise (f x) → is_Raise (mapM f l).
Proof.
  intros Hx Hf. induction l as [|y l IH].
  - by apply elem_of_nil in Hx.
  - simpl. destruct (f y) as [b|e] eqn:Hy; [|by exists e].
    apply elem_of_cons in Hx as [-> | Hx].
    + destruct Hf as [e He]. congruence.
    + destruct (IH Hx) as [e He]. exists e. simpl. by rewrite He.
Qed.

Lemma mapM_result_ext {A B} (f : A → result B) (l k : list A) :
  Forall2 (λ a b, f a = f b) l k → mapM f l = mapM f k.
Proof.
  intros Hlk. induction Hlk as [|a b l k Hab _ IH]; [done|].
  simpl. by rewrite Hab, IH.
Qed.

Lemma recognized_weight p : mup_type p = Some "weight" → recognized p = true.
Proof. unfold recognized. by intros ->. Qed.

(** A weight-role parameter under an unhandled constraint raises, whether
    or not the depth helper does. *)
Lemma scale_fn_unhandled_raises p c :
  mup_type p = Some "weight" → c ≠ "to_output_scale" →
  is_Raise (scale_fn (Some c) p).
Proof.
  intros Hr Hc. destruct (lr_scale_for_depth p) as [s|e] eqn:Hd.
  - eexists. by apply (scale_fn_weight_unhandled _ _ p s c).
  - exists e. by apply scale_fn_depth_raise.
Qed.

(** C8, as amended: under a readout constraint other than [None] and
    [to_output_scale] the scale function raises on every weight-role
    parameter, so group construction fails as soon as the parameters
    include one; no group and no multiplier is produced. *)
Theorem unhandled_constraint_fails_on_weights
    (params : list Param) (lr weight_decay : num)
    (independent_weight_decay allow_non_unit_scaling_params : bool)
    (c : string) :
  c ≠ "to_output_scale" →
  (∀ p, mup_type p = Some "weight" →
        is_Raise (lr_scale_func_sgd lr_scale_for_depth _get_fan_in
                    (Some c) p)) ∧
  ((∃ p, p ∈ params ∧ mup_type p = Some "weight") →
   is_Raise (SGD_init lr_scale_for_depth _get_fan_in
               params lr weight_decay independent_weight_decay
               allow_non_unit_scaling_params (Some c))).
Proof.
  intros Hc. split.
  - intros p Hr. by apply scale_fn_unhandled_raises.
  - intros (p & Hp & Hr). unfold SGD_init, scaled_parameters.
    apply (mapM_result_raise _ _ p Hp).
    unfold scaled_group. rewrite (recognized_weight p Hr).
    destruct (scale_fn_unhandled_raises p c Hr Hc) as [e He].
    exists e. by rewrite He.
Qed.

(** ** Two runs on parameters with the same descriptors *)

Hypothesis depth_reads_descriptor :
  ∀ p q, same_descriptor p q → lr_scale_for_depth p = lr_scale_for_depth q.
Hypothesis fan_in_reads_descriptor :
  ∀ p q, same_descriptor p q → _get_fan_in p = _get_fan_in q.

Lemma scale_fn_reads_descriptor rc p q :
  same_descriptor p q → scale_fn rc p = scale_fn rc q.
Proof.
  intros Hpq. pose proof Hpq as (Hr & Hs & _). unfold_scale.
  by rewrite (depth_reads_descriptor p q Hpq),
    (fan_in_reads_descriptor p q Hpq), Hr, Hs.
Qed.

Lemma gen_param_groups_hparams (model : list Param) (base_lr : num)
    (lr_mods : list num) :
  group_hparams <$> gen_param_groups model base_lr lr_mods =
    (λ m, (Some (VNum (py_mul base_lr m)), None)) <$>
      take (length model) lr_mods.
Proof.
  revert lr_mods. induction model as [|p model IH]; intros [|m lr_mods].
  - by rewrite gen_param_groups_nil_l.
  - by rewrite gen_param_groups_nil_l.
  - by rewrite gen_param_groups_nil_r.
  - rewrite gen_param_groups_cons. simpl.
    by rewrite group_hparams_group_of, IH.
Qed.

(** C9: two runs on parameter sequences with the same descriptors
    (roles, shapes, depth indices), the same readout constraint and the
    same base learning rate agree: the scale function gives each pair of
    parameters the same outcome, and the builder gives each pair of
    groups the same [lr] and [weight_decay] entries. *)
Theorem same_descriptors_same_hyperparameters
    (rc : option string) (base_lr : num) (lr_mods : list num)
    (ps qs : list Param) :
  Forall2 same_descriptor ps qs →
  Forall2 (λ p q, lr_scale_func_sgd lr_scale_for_depth _get_fan_in rc p =
                  lr_scale_func_sgd lr_scale_for_depth _get_fan_in rc q)
    ps qs ∧
  mapM (lr_scale_func_sgd lr_scale_for_depth _get_fan_in rc) ps =
    mapM (lr_scale_func_sgd lr_scale_for_depth _get_fan_in rc) qs ∧
  group_hparams <$> gen_param_groups ps base_lr lr_mods =
    group_hparams <$> gen_param_groups qs base_lr lr_mods.
Proof.
  intros Hpq.
  assert (Hpt : Forall2 (λ p q, scale_fn rc p = scale_fn rc q) ps qs).
  { induction Hpq as [|p q ps qs Hd _ IH]; constructor; [|done].
    by apply scale_fn_reads_descriptor. }
  split; [done|]. split.
  - by apply mapM_result_ext.
  - rewrite !gen_param_groups_hparams.
    by rewrite (Forall2_length _ _ _ Hpq).
Qed.

Lemma group_hparams_scaled (ps : list Param) (x y : num) :
  group_hparams
    ({[ "params" := VParams ps; "lr" := VNum x; "weight_decay" := VNum y ]}
       : gmap string (value num)) =
    (Some (VNum x), Some (VNum y)).
Proof. unfold group_hparams. by simplify_map_eq. Qed.

Lemma scaled_group_reads_descriptor f lr wd iwd allow p q :
  same_descriptor p q → f p = f q →
  group_hparams <$> scaled_group f lr wd iwd allow p =
    group_hparams <$> scaled_group f lr wd iwd allow q.
Proof.
  intros (Hr & _ & _) Hf. unfold scaled_group.
  replace (recognized q) with (recognized p)
    by (unfold recognized; by rewrite Hr).
  rewrite <- Hf. destruct (recognized p).
  - destruct (f p) as [m|e]; [|done]. simpl.
    by rewrite !group_hparams_scaled.
  - destruct allow; [|done]. simpl. by rewrite !group_hparams_scaled.
Qed.

Lemma mapM_result_fmap_ext {A B C} (f : A → result B) (g : B → C)
    (R : A → A → Prop) (l k : list A) :
  (∀ a b, R a b → g <$> f a = g <$> f b) → Forall2 R l k →
  fmap g <$> mapM f l = fmap g <$> mapM f k.
Proof.
  intros Hfg Hlk. induction Hlk as [|a b l k Hab _ IH]; [done|].
  simpl. specialize (Hfg a b Hab).
  destruct (f a) as [x|e1], (f b) as [y|e2]; simplify_eq/=; try done.
  destruct (mapM f l) as [xs|e1], (mapM f k) as [ys|e2];
    simplify_eq/=; try done.
  congruence.
Qed.

(** The same for the construction in [SGD]: both runs fail alike or give
    the same [lr] and [weight_decay] group by group. *)
Lemma SGD_init_reads_descriptor (lr wd : num) (iwd allow : bool)
    (rc : option string) (ps qs : list Param) :
  Forall2 same_descriptor ps qs →
  fmap (M:=list) group_hparams <$> construct ps lr wd iwd allow rc =
    fmap (M:=list) group_hparams <$> construct qs lr wd iwd allow rc.
Proof.
  intros Hpq. unfold SGD_init, scaled_parameters.
  apply (mapM_result_fmap_ext _ _ same_descriptor); [|done].
  intros p q Hd. apply scaled_group_reads_descriptor; [done|].
  by apply scale_fn_reads_descriptor.
Qed.

End ConstructionFacts.

(** * The reference configuration over the reals *)

Lemma R_pow_pos (x y : R) : (0 < x)%R → R_pow x y = Ok (Rpower x y).
Proof. intros Hx. unfold R_pow. by destruct (Rlt_dec 0 x). Qed.

Lemma Rpower_base_1 (y : R) : Rpower 1 y = 1%R.
Proof. unfold Rpower. by rewrite ln_1, Rmult_0_r, exp_0. Qed.

Lemma Rpower_half_apart (x : R) :
  (1 < x)%R → Rpower x (- / 2) ≠ Rpower x (/ 2).
Proof.
  intros Hx. apply Rlt_not_eq. apply Rpower_lt; [done|lra].
Qed.

Section RealScaleFunction.
Variable lr_scale_for_depth : Param → result R.
Variable _get_fan_in : Param → result Z.

Abbreviation scale_fn := (lr_scale_func_sgd lr_scale_for_depth _get_fan_in).

Lemma real_weight_None p s n :
  mup_type p = Some "weight" → lr_scale_for_depth p = Ok s →
  _get_fan_in p = Ok n → (0 < n)%Z →
  scale_fn None p = Ok (s * Rpower (IZR n) (- / 2))%R.
Proof.
  intros Hr Hd Hf Hn.
  rewrite (scale_fn_weight_None _ _ p s Hr Hd), Hf. simpl.
  rewrite R_pow_pos; [done|]. by apply (IZR_lt 0).
Qed.

Lemma real_weight_to_output_scale p s n :
  mup_type p = Some "weight" → lr_scale_for_depth p = Ok s →
  _get_fan_in p = Ok n → (0 < n)%Z →
  scale_fn (Some "to_output_scale") p = Ok (s * Rpower (IZR n) (/ 2))%R.
Proof.
  intros Hr Hd Hf Hn.
  rewrite (scale_fn_weight_to_output_scale _ _ p s Hr Hd), Hf. simpl.
  rewrite R_pow_pos; [done|]. by apply (IZR_lt 0).
Qed.

End RealScaleFunction.

(** C5, as amended: switching the readout constraint between [None] and
    [to_output_scale] leaves the outcome for bias-, norm- and output-role
    parameters unchanged, in any arithmetic, and swaps the fan-in exponent
    of a weight-role parameter; over the reals the weight multiplier
    changes whenever the fan-in exceeds 1 and the depth scale is not 0. *)
Theorem readout_constraint_effect :
  (∀ (num : Type) (Hnum : PyNum num) (depth : Param → result num)
     (fan_in : Param → result Z) (p : Param) (role : string),
     mup_type p = Some role → role ∈ ["bias"; "norm"; "output"] →
     lr_scale_func_sgd depth fan_in None p =
       lr_scale_func_sgd depth fan_in (Some "to_output_scale") p) ∧
  (∀ (depth : Param → result R) (fan_in : Param → result Z) (p : Param)
     (s : R) (n : Z),
     mup_type p = Some "weight" → depth p = Ok s → fan_in p = Ok n →
     s ≠ 0%R → (1 < n)%Z →
     lr_scale_func_sgd depth fan_in None p =
       Ok (s * Rpower (IZR n) (- / 2))%R ∧
     lr_scale_func_sgd depth fan_in (Some "to_output_scale") p =
       Ok (s * Rpower (IZR n) (/ 2))%R ∧
     lr_scale_func_sgd depth fan_in None p ≠
       lr_scale_func_sgd depth fan_in (Some "to_output_scale") p).
Proof.
  split.
  - intros num Hnum depth fan_in p role Hr Hrole.
    apply scale_fn_constraint_unread. rewrite Hr. intros [= ->].
    rewrite !elem_of_cons in Hrole.
    destruct Hrole as [?|[?|[?|Hnil]]]; try discriminate.
    by apply elem_of_nil in Hnil.
  - intros depth fan_in p s n Hr Hd Hf Hs Hn.
    assert (Hpos : (0 < n)%Z) by lia.
    rewrite (real_weight_None depth fan_in p s n Hr Hd Hf Hpos).
    rewrite (real_weight_to_output_scale depth fan_in p s n Hr Hd Hf Hpos).
    split; [done|]. split; [done|]. intros [= Heq].
    apply Rmult_eq_reg_l in Heq; [|done].
    revert Heq. apply Rpower_half_apart. by apply (IZR_lt 1).
Qed.

Lemma readout_constraint_effect_witness :
  ref_scale_fn None bias7 = ref_scale_fn (Some "to_output_scale") bias7 ∧
  ref_scale_fn None lin2 ≠ ref_scale_fn (Some "to_output_scale") lin2.
Proof.
  destruct readout_constraint_effect as [Hframe Hweight]. split.
  - apply (Hframe R R_PyNum _ _ bias7 "bias"); [reflexivity|].
    apply elem_of_cons. by left.
  - apply (Hweight _ _ lin2 1%R 7%Z); try reflexivity. lra.
Defined.

(** C5 fails as stated: a weight whose fan-in is 1 keeps its multiplier. *)
Lemma unit_fan_in_weight_unchanged :
  mup_type unit_fan_in_weight = Some "weight" ∧
  ref_scale_fn None unit_fan_in_weight = Ok (1 * 1)%R ∧
  ref_scale_fn (Some "to_output_scale") unit_fan_in_weight = Ok (1 * 1)%R ∧
  ref_scale_fn None unit_fan_in_weight =
    ref_scale_fn (Some "to_output_scale") unit_fan_in_weight.
Proof.
  assert (HN : ref_scale_fn None unit_fan_in_weight = Ok (1 * 1)%R).
  { rewrite (real_weight_None _ _ unit_fan_in_weight 1%R 1%Z);
      try reflexivity. by rewrite Rpower_base_1. }
  assert (HT : ref_scale_fn (Some "to_output_scale") unit_fan_in_weight
               = Ok (1 * 1)%R).
  { rewrite (real_weight_to_output_scale _ _ unit_fan_in_weight 1%R 1%Z);
      try reflexivity. by rewrite Rpower_base_1. }
  split; [reflexivity|]. split; [done|]. split; [done|]. by rewrite HN, HT.
Qed.

Lemma weight_multiplier_exponent_witness :
  mup_type lin2 = Some "weight" ∧
  ref_lr_scale_for_depth lin2 = Ok 1%R ∧
  ref_get_fan_in lin2 = Ok 7%Z ∧
  ref_scale_fn None lin2 = (x ← R_pow 7 (- / 2); Ok (1 * x)%R) ∧
  ref_scale_fn (Some "to_output_scale") lin2 =
    (x ← R_pow 7 (/ 2); Ok (1 * x)%R).
Proof.
  split; [reflexivity|]. split; [reflexivity|]. split; [reflexivity|].
  exact (weight_multiplier_exponent (num:=R)
           ref_lr_scale_for_depth ref_get_fan_in lin2 1%R 7%Z
           eq_refl eq_refl eq_refl).
Defined.

(** C1 fails as stated: on the hidden weight of the reference model the
    code raises the fan-in to [+0.5] under [to_output_scale] and to [-0.5]
    under [None], the reverse of the specification's table. *)
Lemma weight_exponent_reversed :
  mup_type lin2 = Some "weight" ∧
  ref_lr_scale_for_depth lin2 = Ok 1%R ∧
  ref_get_fan_in lin2 = Ok 7%Z ∧
  ref_scale_fn (Some "to_output_scale") lin2 = Ok (1 * Rpower 7 (/ 2))%R ∧
  spec_weight_multiplier (Some "to_output_scale") 1%R 7 =
    Ok (1 * Rpower 7 (- / 2))%R ∧
  ref_scale_fn (Some "to_output_scale") lin2 ≠
    spec_weight_multiplier (Some "to_output_scale") 1%R 7 ∧
  ref_scale_fn None lin2 ≠ spec_weight_multiplier None 1%R 7.
Proof.
  assert (H7 : (0 < 7)%R) by lra.
  assert (Hapart : (1 * Rpower 7 (- / 2))%R ≠ (1 * Rpower 7 (/ 2))%R).
  { rewrite !Rmult_1_l. apply Rpower_half_apart. lra. }
  assert (HT : ref_scale_fn (Some "to_output_scale") lin2
               = Ok (1 * Rpower 7 (/ 2))%R).
  { by rewrite (real_weight_to_output_scale _ _ lin2 1%R 7%Z). }
  assert (HN : ref_scale_fn None lin2 = Ok (1 * Rpower 7 (- / 2))%R).
  { by rewrite (real_weight_None _ _ lin2 1%R 7%Z). }
  assert (ST : spec_weight_multiplier (Some "to_output_scale") 1%R 7
               = Ok (1 * Rpower 7 (- / 2))%R).
  { unfold spec_weight_multiplier. simpl. by rewrite R_pow_pos. }
  assert (SN : spec_weight_multiplier None 1%R 7
               = Ok (1 * Rpower 7 (/ 2))%R).
  { unfold spec_weight_multiplier. simpl. by rewrite R_pow_pos. }
  split; [reflexivity|]. split; [reflexivity|]. split; [reflexivity|].
  split; [done|]. split; [done|]. split.
  - rewrite HT, ST. intros [= Heq]. by apply Hapart.
  - rewrite HN, SN. intros [= Heq]. by apply Hapart.
Qed.

Lemma bias_norm_multiplier_witness :
  mup_type bias7 = Some "bias" ∧
  ref_lr_scale_for_depth bias7 = Ok 1%R ∧
  shape bias7 = [7%Z] ∧
  ref_scale_fn None bias7 = Ok (1 * 7)%R.
Proof.
  split; [reflexivity|]. split; [reflexivity|]. split; [reflexivity|].
  exact (bias_norm_multiplier (num:=R)
           ref_lr_scale_for_depth ref_get_fan_in None bias7 "bias" 1%R 7%Z
           eq_refl (or_introl eq_refl) eq_refl eq_refl).
Defined.

Lemma output_multiplier_witness :
  mup_type readout = Some "output" ∧
  ref_lr_scale_for_depth readout = Ok 1%R ∧
  ref_scale_fn (Some "to_output_scale") readout = Ok 1%R.
Proof.
  split; [reflexivity|]. split; [reflexivity|].
  exact (output_multiplier (num:=R)
           ref_lr_scale_for_depth ref_get_fan_in
           (Some "to_output_scale") readout 1%R eq_refl eq_refl).
Defined.

Lemma stray_role_unlisted (role : string) :
  mup_type stray = Some role →
  role ∉ ["weight"; "bias"; "norm"; "output"].
Proof.
  intros [= <-]. rewrite !not_elem_of_cons.
  repeat split; try discriminate. apply not_elem_of_nil.
Defined.

Lemma unexpected_role_raises_witness :
  is_Raise (ref_scale_fn None stray) ∧
  ref_scale_fn None stray =
    Raise (AssertionError "Unexpected mup_type embedding").
Proof.
  destruct (unexpected_role_raises (num:=R)
              ref_lr_scale_for_depth ref_get_fan_in None stray
              stray_role_unlisted) as (Hraise & _ & Herr).
  split; [exact Hraise|]. exact (Herr 1%R "embedding" eq_refl eq_refl).
Defined.

(** C6 fails as stated: with two multipliers for the three parameters of
    the reference model the readout is in no group. *)
Lemma two_multipliers_three_parameters :
  let gs := gen_param_groups model_c base_lr_b (take 2 lr_mods_b) in
  length gs = 2 ∧
  concat (group_params <$> gs) = [lin1; lin2] ∧
  concat (group_params <$> gs) ≠ model_c ∧
  (∀ g, g ∈ gs → readout ∉ group_params g).
Proof.
  cbv zeta. split; [by rewrite gen_param_groups_length|].
  rewrite gen_param_groups_params. simpl.
  split; [done|]. split; [done|].
  intros g Hg Hin.
  pose proof (elem_of_group_concat g _ readout Hg Hin) as Hc.
  rewrite gen_param_groups_params in Hc. simpl in Hc.
  rewrite !elem_of_cons in Hc.
  destruct Hc as [?|[?|Hnil]]; try discriminate.
  by apply elem_of_nil in Hnil.
Qed.

Lemma groups_partition_parameters_witness :
  length model_c ≤ length lr_mods_b ∧
  length (gen_param_groups model_c base_lr_b lr_mods_b) = 3 ∧
  concat (group_params <$> gen_param_groups model_c base_lr_b lr_mods_b) =
    model_c.
Proof.
  assert (Hlen : length model_c ≤ length lr_mods_b) by (simpl; lia).
  destruct (groups_partition_parameters model_c base_lr_b lr_mods_b Hlen)
    as (Hn & _ & Hc).
  split; [exact Hlen|]. split; [exact Hn | exact Hc].
Defined.

Lemma short_multiplier_list_drops_parameters_witness :
  length (take 2 lr_mods_b) < length model_c ∧
  length (gen_param_groups model_c base_lr_b (take 2 lr_mods_b)) = 2 ∧
  concat (group_params <$>
            gen_param_groups model_c base_lr_b (take 2 lr_mods_b)) ≠ model_c.
Proof.
  assert (Hlen : length (take 2 lr_mods_b) < length model_c)
    by (simpl; lia).
  destruct (short_multiplier_list_drops_parameters
              model_c base_lr_b (take 2 lr_mods_b) Hlen)
    as (Hn & _ & _ & Hne).
  split; [exact Hlen|]. split; [exact Hn | exact Hne].
Defined.

(** C8 fails as stated: under an unknown constraint the scale function
    still returns the readout's multiplier, and a model made of a readout
    alone is built with it. *)
Lemma readout_only_model_ignores_constraint :
  ref_scale_fn (Some "to_input_scale") readout = Ok 1%R ∧
  SGD_init (num:=R) ref_lr_scale_for_depth ref_get_fan_in
    [readout] base_lr_c 0%R true false (Some "to_input_scale") =
  Ok [ {[ "params" := VParams [readout];
          "lr" := VNum (base_lr_c * 1)%R;
          "weight_decay" := VNum 0%R ]} ].
Proof. split; reflexivity. Qed.

Lemma unhandled_constraint_fails_on_weights_witness :
  "to_input_scale" ≠ "to_output_scale" ∧
  is_Raise (ref_scale_fn (Some "to_input_scale") lin1) ∧
  is_Raise (SGD_init (num:=R) ref_lr_scale_for_depth ref_get_fan_in
              model_c base_lr_c 0%R true false (Some "to_input_scale")).
Proof.
  assert (Hc : "to_input_scale" ≠ "to_output_scale") by discriminate.
  destruct (unhandled_constraint_fails_on_weights (num:=R)
              ref_lr_scale_for_depth ref_get_fan_in
              model_c base_lr_c 0%R true false "to_input_scale" Hc)
    as [Hfn Hbuild].
  split; [exact Hc|]. split.
  - exact (Hfn lin1 eq_refl).
  - apply Hbuild. exists lin1. split; [|reflexivity].
    apply elem_of_cons. by left.
Defined.

Lemma ref_depth_reads_descriptor {num : Type} `{PyNum num} (p q : Param) :
  same_descriptor p q →
  ref_lr_scale_for_depth (num:=num) p = ref_lr_scale_for_depth q.
Proof.
  intros (_ & _ & Hd). unfold ref_lr_scale_for_depth. by rewrite Hd.
Defined.

Lemma ref_fan_in_reads_descriptor (p q : Param) :
  same_descriptor p q → ref_get_fan_in p = ref_get_fan_in q.
Proof. intros (_ & Hs & _). unfold ref_get_fan_in. by rewrite Hs. Defined.

Lemma model_c_rebuilt : Forall2 same_descriptor model_c model_c2.
Proof. repeat constructor. Defined.

Lemma same_descriptors_same_hyperparameters_witness :
  Forall2 same_descriptor model_c model_c2 ∧
  Forall2 (λ p q, ref_scale_fn None p = ref_scale_fn None q)
    model_c model_c2 ∧
  mapM (ref_scale_fn None) model_c = mapM (ref_scale_fn None) model_c2 ∧
  group_hparams <$> gen_param_groups model_c base_lr_b lr_mods_b =
    group_hparams <$> gen_param_groups model_c2 base_lr_b lr_mods_b.
Proof.
  split; [exact model_c_rebuilt|].
  exact (same_descriptors_same_hyperparameters (num:=R)
           ref_lr_scale_for_depth ref_get_fan_in
           ref_depth_reads_descriptor ref_fan_in_reads_descriptor
           None base_lr_b lr_mods_b model_c model_c2 model_c_rebuilt).
Defined.

(** ** Evaluating the scale function on the other parameters *)

Example norm_gain_multiplier : ref_scale_fn None norm7 = Ok (1 * 7)%R.
Proof. reflexivity. Qed.

Example readout_multiplier : ref_scale_fn None readout = Ok 1%R.
Proof. reflexivity. Qed.

Example untagged_raises :
  ref_scale_fn None untagged = Raise (AttributeError "mup_type").
Proof. reflexivity. Qed.

Example stray_raises_under_either_constraint :
  ref_scale_fn (Some "to_output_scale") stray =
    Raise (AssertionError "Unexpected mup_type embedding").
Proof. reflexivity. Qed.

Example weight_raises_under_unknown_constraint :
  ref_scale_fn (Some "to_input_scale") lin1 =
    Raise (AssertionError "Unhandled readout constraint: to_input_scale").
Proof. reflexivity. Qed.

(** ** The hand-written tables of cells 12 and 14

    The markdown before cell 14 multiplies the two weight entries of the
    earlier table by [sqrt(d_out) / d_hid] and keeps the readout entry. *)

Lemma Rpower_neg_half (x : R) :
  (0 < x)%R → Rpower x (- / 2) = (Rpower x (/ 2) / x)%R.
Proof.
  intros Hx. replace (- / 2)%R with (/ 2 + Ropp 1)%R by lra.
  by rewrite Rpower_plus, Rpower_Ropp, Rpower_1.
Qed.

Lemma Rpower_half_gt_1 (x : R) : (1 < x)%R → (1 < Rpower x (/ 2))%R.
Proof.
  intros Hx. rewrite <- (Rpower_O x) at 1; [|lra].
  apply Rpower_lt; [done|lra].
Qed.

Lemma cell14_table_from_cell12 :
  lr_mods_c2 =
    zip_with Rmult lr_mods_c
      [(Rpower 11 (/ 2) / 7)%R; (Rpower 11 (/ 2) / 7)%R; 1%R].
Proof.
  unfold lr_mods_c2, lr_mods_c. simpl.
  rewrite (Rpower_neg_half 7) by lra.
  f_equal; [field|]. f_equal; [field|]. f_equal. lra.
Qed.

Lemma cell14_table_keeps_readout_entry :
  lr_mods_c2 ≠ (Rmult (Rpower 11 (/ 2))) <$> lr_mods_c.
Proof.
  unfold lr_mods_c2, lr_mods_c. simpl. intros [= _ _ H1].
  pose proof (Rpower_half_gt_1 11). lra.
Qed.

(** * Further properties of the role scale function *)

Section ScaleFunctionOutcomes.
Context {num : Type} `{PyNum num}.
Variable lr_scale_for_depth : Param → result num.
Variable _get_fan_in : Param → result Z.

Abbreviation scale_fn := (lr_scale_func_sgd lr_scale_for_depth _get_fan_in).

(** X1: the scale function returns a multiplier [m] exactly in three
    situations, the depth helper having returned [s]: a bias or norm with
    a first dimension [n] and [m = s * n]; a weight under a handled
    constraint whose fan-in helper and power succeed; an output with
    [m = s]. *)
Theorem scale_fn_returns_iff rc p m :
  lr_scale_func_sgd lr_scale_for_depth _get_fan_in rc p = Ok m ↔
  ∃ s role, lr_scale_for_depth p = Ok s ∧ mup_type p = Some role ∧
    ((role = "bias" ∨ role = "norm") ∧
       (∃ n, shape p !! 0 = Some n ∧ m = py_mul s (of_int n))
     ∨ role = "weight" ∧
       (∃ n e x, _get_fan_in p = Ok n ∧
          (rc = None ∧ e = float_neg_half
           ∨ rc = Some "to_output_scale" ∧ e = float_half) ∧
          py_pow (of_int n) e = Ok x ∧ m = py_mul s x)
     ∨ role = "output" ∧ m = s).
Proof.
  split.
  - unfold_scale.
    destruct (lr_scale_for_depth p) as [s|e] eqn:Hd; [|done].
    destruct (mup_type p) as [role|] eqn:Hr; [|done]. simpl.
    intros Hm. exists s, role. split; [done|]. split; [done|].
    destruct (String.eqb_spec role "bias") as [->|Hb].
    { left. split; [by left|]. simpl in Hm.
      destruct (shape p !! 0) as [n|]; [|done].
      exists n. split; [done|]. by injection Hm. }
    destruct (String.eqb_spec role "norm") as [->|Hn].
    { left. split; [by right|]. simpl in Hm.
      destruct (shape p !! 0) as [n|]; [|done].
      exists n. split; [done|]. by injection Hm. }
    simpl in Hm.
    destruct (String.eqb_spec role "weight") as [->|Hw].
    { right. left. split; [done|].
      destruct rc as [c|].
      - destruct (String.eqb_spec c "to_output_scale") as [->|Hc]; [|done].
        destruct (_get_fan_in p) as [n|]; [|done]. simpl in Hm.
        destruct (py_pow (of_int n) float_half) as [x|] eqn:Hx; [|done].
        exists n, float_half, x. split; [done|].
        split; [by right|]. split; [done|]. by injection Hm.
      - destruct (_get_fan_in p) as [n|]; [|done]. simpl in Hm.
        destruct (py_pow (of_int n) float_neg_half) as [x|] eqn:Hx; [|done].
        exists n, float_neg_half, x. split; [done|].
        split; [by left|]. split; [done|]. by injection Hm. }
    destruct (String.eqb_spec role "output") as [->|Ho]; [|done].
    right. right. split; [done|]. by injection Hm.
  - intros (s & role & Hd & Hr & Hcase). unfold_scale. rewrite Hd, Hr.
    destruct Hcase as [[Hrole (n & Hn & ->)] | [[-> Hw] | [-> ->]]].
    + destruct Hrole as [-> | ->]; simpl; by rewrite Hn.
    + destruct Hw as (n & e & x & Hf & He & Hx & ->). simpl. rewrite Hf.
      destruct He as [[-> ->] | [-> ->]]; simpl; by rewrite Hx.
    + done.
Qed.

(** X2: the fan-in helper is consulted for weight-role parameters under a
    handled constraint only: elsewhere any two helpers give the same
    outcome, errors included. *)
Theorem fan_in_helper_unread (other_fan_in : Param → result Z) rc p :
  mup_type p ≠ Some "weight" ∨
    (∃ c, rc = Some c ∧ c ≠ "to_output_scale") →
  lr_scale_func_sgd lr_scale_for_depth _get_fan_in rc p =
    lr_scale_func_sgd lr_scale_for_depth other_fan_in rc p.
Proof.
  intros Hcase. unfold_scale.
  destruct (lr_scale_for_depth p) as [s|e]; [|done].
  destruct (mup_type p) as [role|]; [|done]. simpl.
  destruct (String.eqb role "bias"); [done|].
  destruct (String.eqb role "norm"); [done|]. simpl.
  destruct (String.eqb_spec role "weight") as [->|_]; [|done].
  destruct Hcase as [Hne | (c & -> & Hc)]; [done|].
  by rewrite (eqb_of_neq _ _ Hc).
Qed.

(** X3: for a bias or a norm only the first dimension of the shape is
    read: a shape [(n, ...)] gives [depth_scale * n] whatever follows, and
    a zero-dimensional tensor raises [IndexError]. *)
Theorem bias_norm_reads_first_dimension rc p role s :
  mup_type p = Some role →
  role = "bias" ∨ role = "norm" →
  lr_scale_for_depth p = Ok s →
  lr_scale_func_sgd lr_scale_for_depth _get_fan_in rc p =
    match shape p with
    | [] => Raise IndexError
    | n :: _ => Ok (py_mul s (of_int n))
    end.
Proof.
  intros Hr Hrole Hd. unfold_scale. rewrite Hd, Hr.
  destruct Hrole as [-> | ->]; simpl; by destruct (shape p).
Qed.

End ScaleFunctionOutcomes.

(** ** Width dependence of the weight multiplier over the reals *)


Lemma Rpower_pos (x y : R) : (0 < Rpower x y)%R.
Proof. unfold Rpower. apply exp_pos. Qed.

Section RealWeightMultiplier.
Variable lr_scale_for_depth : Param → result R.
Variable _get_fan_in : Param → result Z.


(** X5: with a positive depth scale, a wider weight (larger fan-in) gets
    a strictly smaller multiplier under [None] and a strictly larger one
    under [to_output_scale]. *)
Theorem weight_multiplier_monotone p q s n1 n2 :
  mup_type p = Some "weight" → mup_type q = Some "weight" →
  lr_scale_for_depth p = Ok s → lr_scale_for_depth q = Ok s →
  _get_fan_in p = Ok n1 → _get_fan_in q = Ok n2 →
  (0 < s)%R → (0 < n1 < n2)%Z →
  ∃ a1 a2 b1 b2 : R,
    lr_scale_func_sgd lr_scale_for_depth _get_fan_in None p = Ok a1 ∧
    lr_scale_func_sgd lr_scale_for_depth _get_fan_in None q = Ok a2 ∧
    lr_scale_func_sgd lr_scale_for_depth _get_fan_in
      (Some "to_output_scale") p = Ok b1 ∧
    lr_scale_func_sgd lr_scale_for_depth _get_fan_in
      (Some "to_output_scale") q = Ok b2 ∧
    (a2 < a1)%R ∧ (b1 < b2)%R.
Proof.
  intros Hp Hq Hdp Hdq Hfp Hfq Hs [Hn1 Hn12].
  assert (Hx1 : (0 < IZR n1)%R) by by apply (IZR_lt 0).
  assert (Hx12 : (IZR n1 < IZR n2)%R) by by apply IZR_lt.
  assert (Hn2 : (0 < n2)%Z) by lia.
  exists (s * Rpower (IZR n1) (- / 2))%R, (s * Rpower (IZR n2) (- / 2))%R,
    (s * Rpower (IZR n1) (/ 2))%R, (s * Rpower (IZR n2) (/ 2))%R.
  split; [by apply real_weight_None|].
  split; [by apply real_weight_None|].
  split; [by apply real_weight_to_output_scale|].
  split; [by apply real_weight_to_output_scale|].
  assert (Hh : (Rpower (IZR n1) (/ 2) < Rpower (IZR n2) (/ 2))%R).
  { apply Rlt_Rpower_l; lra. }
  split.
  - apply Rmult_lt_compat_l; [done|]. rewrite !Rpower_Ropp.
    apply Rinv_0_lt_contravar; [apply Rpower_pos | done].
  - by apply Rmult_lt_compat_l.
Qed.

(** X6: a weight with fan-in 0 raises [ZeroDivisionError] under [None]
    ([0 ** -0.5]) and gets the multiplier [depth_scale * 0] under
    [to_output_scale] ([0 ** 0.5] is [0]). *)
Theorem zero_fan_in_weight p s :
  mup_type p = Some "weight" → lr_scale_for_depth p = Ok s →
  _get_fan_in p = Ok 0%Z →
  lr_scale_func_sgd lr_scale_for_depth _get_fan_in None p =
    Raise ZeroDivisionError ∧
  lr_scale_func_sgd lr_scale_for_depth _get_fan_in
    (Some "to_output_scale") p = Ok (s * 0)%R.
Proof.
  intros Hr Hd Hf.
  assert (Hneg : R_pow 0 (- / 2) = Raise ZeroDivisionError).
  { unfold R_pow. destruct (Rlt_dec 0 0) as [?|_]; [lra|].
    destruct (Rlt_dec (- / 2) 0) as [_|?]; [done|lra]. }
  assert (Hpos : R_pow 0 (/ 2) = Ok 0%R).
  { unfold R_pow. destruct (Rlt_dec 0 0) as [?|_]; [lra|].
    destruct (Rlt_dec (/ 2) 0) as [?|_]; [lra|].
    destruct (Rlt_dec 0 (/ 2)) as [_|?]; [done|lra]. }
  split.
  - rewrite (scale_fn_weight_None _ _ p s Hr Hd), Hf. simpl.
    by rewrite Hneg.
  - rewrite (scale_fn_weight_to_output_scale _ _ p s Hr Hd), Hf. simpl.
    by rewrite Hpos.
Qed.

End RealWeightMultiplier.

(** * Further properties of the group builder *)

Section GroupBuilderShape.
Context {num : Type} `{PyNum num}.

Abbreviation group_of p x :=
  ({[ "params" := VParams [p]; "lr" := VNum x ]} : gmap string (value num)).

Lemma gen_param_groups_take (model : list Param) (base_lr : num)
    (lr_mods : list num) :
  gen_param_groups model base_lr lr_mods =
    gen_param_groups (take (length lr_mods) model) base_lr
      (take (length model) lr_mods).
Proof.
  revert lr_mods. induction model as [|p model IH]; intros [|m lr_mods].
  - done.
  - done.
  - by rewrite !gen_param_groups_nil_r.
  - simpl. rewrite !gen_param_groups_cons. by rewrite <- IH.
Qed.

(** X7: multipliers beyond the number of parameters are ignored: the
    builder gives the same groups with and without them, and raises
    nothing. *)
Theorem surplus_multipliers_ignored
    (model : list Param) (base_lr : num) (lr_mods extra : list num) :
  length model ≤ length lr_mods →
  gen_param_groups model base_lr (lr_mods ++ extra) =
    gen_param_groups model base_lr lr_mods.
Proof.
  intros Hlen.
  rewrite (gen_param_groups_take model base_lr (lr_mods ++ extra)).
  rewrite (gen_param_groups_take model base_lr lr_mods).
  rewrite take_app_le by done.
  rewrite length_app.
  by rewrite !(take_ge model) by lia.
Qed.

(** X8: building the groups of two models in one call gives the groups
    of the first followed by those of the second, when the first gets
    exactly its own multipliers. *)
Theorem gen_param_groups_app
    (model1 model2 : list Param) (base_lr : num) (mods1 mods2 : list num) :
  length model1 = length mods1 →
  gen_param_groups (model1 ++ model2) base_lr (mods1 ++ mods2) =
    gen_param_groups model1 base_lr mods1 ++
    gen_param_groups model2 base_lr mods2.
Proof.
  revert mods1. induction model1 as [|p model1 IH]; intros [|m mods1] Hlen;
    try discriminate.
  - by rewrite gen_param_groups_nil_l.
  - simpl. rewrite !gen_param_groups_cons. simpl.
    rewrite IH; [done|]. by injection Hlen.
Qed.

(** X9: the builder returns no group exactly when the model has no
    parameter or the multiplier sequence is empty. *)
Theorem gen_param_groups_empty_iff
    (model : list Param) (base_lr : num) (lr_mods : list num) :
  gen_param_groups model base_lr lr_mods = [] ↔ model = [] ∨ lr_mods = [].
Proof.
  split.
  - intros Hnil. apply (f_equal length) in Hnil.
    rewrite gen_param_groups_length in Hnil.
    destruct model, lr_mods; auto. discriminate.
  - intros [-> | ->];
      [apply gen_param_groups_nil_l | apply gen_param_groups_nil_r].
Qed.

Lemma gen_param_groups_lookup_inv
    (model : list Param) (base_lr : num) (lr_mods : list num)
    (i : nat) (g : gmap string (value num)) :
  gen_param_groups model base_lr lr_mods !! i = Some g →
  ∃ p m, model !! i = Some p ∧ lr_mods !! i = Some m ∧
         g = group_of p (py_mul base_lr m).
Proof.
  revert lr_mods i.
  induction model as [|q model IH]; intros [|k lr_mods] i.
  - by rewrite gen_param_groups_nil_l.
  - by rewrite gen_param_groups_nil_l.
  - by rewrite gen_param_groups_nil_r.
  - rewrite gen_param_groups_cons. destruct i as [|i]; simpl.
    + intros [= <-]. by exists q, k.
    + apply IH.
Qed.

(** X10: the group at position [i] exists exactly when both inputs have
    an entry at [i], and it pairs that parameter with that multiplier:
    the assignment is by position, never by role or shape. *)
Theorem gen_param_groups_lookup_iff
    (model : list Param) (base_lr : num) (lr_mods : list num)
    (i : nat) (g : gmap string (value num)) :
  gen_param_groups model base_lr lr_mods !! i = Some g ↔
  ∃ p m, model !! i = Some p ∧ lr_mods !! i = Some m ∧
         g = group_of p (py_mul base_lr m).
Proof.
  split; [apply gen_param_groups_lookup_inv|].
  intros (p & m & Hp & Hm & ->). by apply gen_param_groups_lookup.
Qed.

(** X11: every emitted group has exactly the keys [params] and [lr],
    holds one parameter of the model and carries no [weight_decay]. *)
Theorem gen_param_groups_keys
    (model : list Param) (base_lr : num) (lr_mods : list num)
    (g : gmap string (value num)) :
  g ∈ gen_param_groups model base_lr lr_mods →
  dom g = ({[ "params"; "lr" ]} : gset string) ∧
  (∃ p, p ∈ model ∧ group_params g = [p]) ∧
  g !! "weight_decay" = None.
Proof.
  intros Hg. apply list_elem_of_lookup in Hg as [i Hi].
  apply gen_param_groups_lookup_inv in Hi as (p & m & Hp & _ & ->).
  split; [|split].
  - rewrite dom_insert_L, dom_singleton_L. done.
  - exists p. split; [by eapply list_elem_of_lookup_2|].
    apply group_params_group_of.
  - by simplify_map_eq.
Qed.

End GroupBuilderShape.

(** * The multiplier tuples of cells 12, 14 and 19 *)

Lemma R_pow_IZR_pos (n : Z) (y : R) :
  (0 < n)%Z → R_pow (IZR n) y = Ok (Rpower (IZR n) y).
Proof. intros Hn. apply R_pow_pos. by apply (IZR_lt 0). Qed.

Lemma Rpower_neg_1 (x : R) : (0 < x)%R → Rpower x (- 1) = (/ x)%R.
Proof.
  intros Hx. replace (- 1)%R with (Ropp 1) by lra.
  by rewrite Rpower_Ropp, Rpower_1.
Qed.

(** X12: for positive dimensions the tuple of cell 14 is the tuple of
    cell 12 with its two weight entries multiplied by
    [sqrt(d_out) / d_hid] and its readout entry kept, as the text before
    cell 14 derives it. *)
Theorem cell14_from_cell12 (d_inp d_hid d_out : Z) :
  (0 < d_inp)%Z → (0 < d_hid)%Z → (0 < d_out)%Z →
  ∃ t12 t14 : list R,
    cell12_lr_mods d_inp d_hid d_out = Ok t12 ∧
    cell14_lr_mods d_inp d_hid d_out = Ok t14 ∧
    t14 = zip_with Rmult t12
            [(Rpower (IZR d_out) (/ 2) / IZR d_hid)%R;
             (Rpower (IZR d_out) (/ 2) / IZR d_hid)%R; 1%R].
Proof.
  intros Hi Hh Ho.
  assert (Hxh : (0 < IZR d_hid)%R) by by apply (IZR_lt 0).
  unfold cell12_lr_mods, cell14_lr_mods.
  rewrite !R_pow_IZR_pos by done. simpl.
  eexists _, _. split; [done|]. split; [done|]. simpl.
  rewrite (Rpower_neg_half _ Hxh).
  f_equal; [field; lra|]. f_equal; [field; lra|]. f_equal. lra.
Qed.





(** * The dev task launcher *)

Lemma actions_app (t1 t2 : list event) :
  actions (t1 ++ t2) = actions t1 ++ actions t2.
Proof. unfold actions. apply omap_app. Qed.

Lemma str_in_elem_of (x : string) (xs : list string) :
  str_in x xs = bool_decide (x ∈ xs).
Proof.
  unfold str_in. induction xs as [|y xs IH]; cbn [existsb].
  - symmetry. apply bool_decide_eq_false_2. apply not_elem_of_nil.
  - rewrite IH. destruct (String.eqb_spec x y) as [->|Hne]; cbn [orb].
    + symmetry. apply bool_decide_eq_true_2. by left.
    + apply bool_decide_ext. rewrite elem_of_cons. intuition congruence.
Qed.

Lemma follows_ret {A} (a : A) : follows (mret a : script A) [].
Proof. intros t. exists []. by rewrite app_nil_r. Qed.

Lemma follows_bind {A B} (m : script A) (f : A → script B)
    (plan1 plan2 : list action) :
  follows m plan1 → (∀ a, follows (f a) plan2) →
  follows (m ≫= f) (plan1 ++ plan2).
Proof.
  intros Hm Hf t. destruct (Hm t) as (new1 & E1 & P1 & D1).
  unfold mbind, script_bind.
  destruct (m t) as [[a|code|e] t'] eqn:Hmt; simpl in *.
  - subst t'. destruct (Hf a (t ++ new1)) as (new2 & E2 & P2 & D2).
    exists (new1 ++ new2). rewrite E2, app_assoc, actions_app.
    rewrite (D1 a eq_refl). split; [done|]. split.
    + by apply prefix_app.
    + intros b Hb. by rewrite (D2 b Hb).
  - exists new1. split; [done|]. split; [by apply prefix_app_r|done].
  - exists new1. split; [done|]. split; [by apply prefix_app_r|done].
Qed.

Lemma follows_seq {A B} (m : script A) (k : script B)
    (plan1 plan2 : list action) :
  follows m plan1 → follows k plan2 → follows (m;; k) (plan1 ++ plan2).
Proof. intros Hm Hk. by apply follows_bind. Qed.

Lemma follows_print_stderr (line : string) : follows (print_stderr line) [].
Proof. intros t. by exists [Stderr line]. Qed.

Lemma follows_print_stdout (line : string) : follows (print_stdout line) [].
Proof. intros t. by exists [Stdout line]. Qed.

Lemma follows_sys_exit {A} (code : Z) (plan : list action) :
  follows (sys_exit code : script A) plan.
Proof.
  intros t. exists []. rewrite app_nil_r.
  split; [done|]. split; [apply prefix_nil|done].
Qed.

Lemma for_each_prints (xs : list string) (line : string → string)
    (t : list event) :
  for_each xs (λ x, print_stderr (line x)) t =
    (Done (), t ++ ((λ x, Stderr (line x)) <$> xs)).
Proof.
  revert t. induction xs as [|x xs IH]; intros t; simpl.
  - by rewrite app_nil_r.
  - unfold mbind, script_bind. simpl. rewrite IH.
    by rewrite <- app_assoc.
Qed.

Lemma actions_prints (xs : list string) (line : string → string) :
  actions ((λ x, Stderr (line x)) <$> xs) = [].
Proof. by induction xs. Qed.

Section LauncherFacts.
Variable getcwd : string.
Variable os_environ : gmap string string.
Variable os_call : list event → list string → os_result Z.
Variable os_shell : list event → string → os_result string.
Variable py_strip : string → string.
Variable comment_prefixes : string → list string.
Variable this_year : string.

Abbreviation run_ := (run getcwd os_environ os_call).
Abbreviation copyright_ :=
  (copyright os_shell py_strip comment_prefixes this_year).
Abbreviation stops := (stops_at_failure os_call os_shell py_strip).
Abbreviation run_environ :=
  (<[ "PYTHONPATH" :=
        getcwd +:+ ":" +:+ default "" (os_environ !! "PYTHONPATH") ]>
     os_environ).

(** One call of [run], spelled out. *)
Lemma run_eq (command : list (option string)) (t : list event) :
  run_ command t =
    let cmd := omap (λ arg, arg) command in
    let t1 := t ++ [Stderr ("$ " +:+ String.concat " " cmd)] in
    (match os_call t1 cmd with
     | Returned code => if (code =? 0)%Z then Done () else SysExit code
     | OSFailed e => Uncaught e
     end, t1 ++ [Call cmd (Some run_environ)]).
Proof.
  unfold run, subprocess_call, print_stderr, mbind, script_bind. simpl.
  destruct (os_call _ _) as [code|e]; [|done].
  by destruct (code =? 0)%Z.
Qed.

Lemma follows_run (command : list (option string)) :
  follows (run_ command) [ACall (omap (λ arg, arg) command)].
Proof.
  intros t. rewrite run_eq. simpl.
  eexists [_; _]. rewrite <- app_assoc. split; [done|]. by split.
Qed.

Lemma follows_subprocess_call argv env :
  follows (subprocess_call os_call argv env) [ACall argv].
Proof. intros t. exists [Call argv env]. by split. Qed.

Lemma follows_tests (filter : option string) :
  follows (tests getcwd os_environ os_call filter)
    [ACall (pytest_argv filter)].
Proof.
  unfold tests.
  replace (pytest_argv filter) with
    (omap (λ arg : option string, arg)
       ([Some "python"; Some "-m"; Some "pytest"; Some "unit_scaling";
         if truthy filter then None else Some "--cov=unit_scaling"]
        ++ (if truthy filter then [Some "-k"; filter] else []))).
  { apply follows_run. }
  unfold pytest_argv, truthy. destruct filter as [f|]; [|done].
  by destruct (String.eqb f "").
Qed.

Lemma follows_lint : follows (lint getcwd os_environ os_call) lint_plan.
Proof.
  unfold lint. apply (follows_seq _ _ [_] [_]); apply follows_run.
Qed.

Lemma follows_format (check : bool) :
  follows (format getcwd os_environ os_call check) (format_plan check).
Proof.
  unfold format, format_plan.
  destruct check; apply (follows_seq _ _ [_] [_]); apply follows_run.
Qed.

Lemma follows_doc : follows (doc getcwd os_environ os_call) doc_plan.
Proof.
  unfold doc. apply (follows_seq _ _ [_] [_]).
  - apply follows_subprocess_call.
  - apply follows_run.
Qed.

Lemma follows_copyright : follows copyright_ [AShell copyright_command].
Proof.
  unfold copyright. apply (follows_seq _ _ [] [_]).
  { apply follows_print_stderr. }
  apply (follows_bind _ _ [_] []).
  { intros t. exists [Shell copyright_command]. by split. }
  intros raw. destruct (String.eqb (py_strip raw) "").
  { apply follows_ret. }
  apply (follows_seq _ _ [] []); [apply follows_print_stderr|].
  apply (follows_seq _ _ [] []); [apply follows_print_stdout|].
  apply (follows_seq _ _ [] []); [|apply follows_sys_exit].
  intros t. rewrite for_each_prints. eexists. split; [done|].
  rewrite actions_prints. by split.
Qed.

Lemma follows_guard (skipped : bool) (m : script unit) (plan : list action) :
  follows m plan →
  follows (if negb skipped then m else mret ())
    (if skipped then [] else plan).
Proof. intros Hm. destruct skipped; [apply follows_ret | done]. Qed.

Lemma follows_ci (skip : list string) :
  follows (ci getcwd os_environ os_call os_shell py_strip comment_prefixes
             this_year skip) (ci_plan skip).
Proof.
  unfold ci, ci_plan. rewrite <- !str_in_elem_of.
  repeat (apply follows_seq; [apply follows_guard|]).
  - apply follows_tests.
  - apply follows_lint.
  - apply follows_format.
  - apply follows_copyright.
  - apply follows_guard, follows_doc.
Qed.

End LauncherFacts.

Section LauncherFailures.
Variable getcwd : string.
Variable os_environ : gmap string string.
Variable os_call : list event → list string → os_result Z.
Variable os_shell : list event → string → os_result string.
Variable py_strip : string → string.
Variable comment_prefixes : string → list string.
Variable this_year : string.

Abbreviation run_ := (run getcwd os_environ os_call).
Abbreviation copyright_ :=
  (copyright os_shell py_strip comment_prefixes this_year).
Abbreviation stops := (stops_at_failure os_call os_shell py_strip).







Lemma copyright_eq (t : list event) :
  copyright_ t =
    let t1 := t ++ [Stderr ("$ " +:+ copyright_command)] in
    let t2 := t1 ++ [Shell copyright_command] in
    match os_shell t1 copyright_command with
    | OSFailed e => (Uncaught e, t2)
    | Returned raw =>
        if String.eqb (py_strip raw) "" then (Done (), t2)
        else
          (SysExit 1,
           ((t2 ++ [Stderr ("Error - failed copyright header check in:" +:+
                            nl +:+ "   " +:+ indent_newlines (py_strip raw))])
              ++ [Stdout "Template(s):"])
             ++ ((λ prefix,
                    Stderr (prefix +:+ " Copyright (c) " +:+ this_year +:+
                            " Graphcore Ltd. All rights reserved."))
                   <$> comment_prefixes (py_strip raw)))
    end.
Proof.
  unfold copyright. generalize copyright_command. intros cmd.
  unfold subprocess_run_shell, mbind, script_bind.
  cbn [print_stderr fst snd].
  destruct (os_shell _ _) as [raw|e]; [|reflexivity].
  destruct (String.eqb (py_strip raw) ""); [reflexivity|].
  cbn [print_stderr print_stdout].
  by rewrite for_each_prints.
Qed.



(** X14: whatever the tools answer, [ci] starts its commands in the order
    tests, flake8, mypy, black, isort, copyright pipeline, rm, make (less
    the skipped tasks): the commands started are a prefix of that list,
    and the whole list when [ci] returns. *)
Theorem ci_follows_plan (skip : list string) (t : list event) :
  ∃ new,
    (ci getcwd os_environ os_call os_shell py_strip comment_prefixes
       this_year skip t).2 = t ++ new ∧
    actions new `prefix_of` ci_plan skip ∧
    (∀ a, (ci getcwd os_environ os_call os_shell py_strip comment_prefixes
             this_year skip t).1 = Done a →
          actions new = ci_plan skip).
Proof. apply follows_ci. Qed.


(** X16: no skip list made of the values the command line accepts
    (tests, lint, format, copyright) skips the documentation build: if
    [ci] returns, its last two commands were the [rm] and the [make] of
    [doc]. *)
Theorem cli_skip_keeps_doc (skip : list string) (t : list event) :
  (∀ s, s ∈ skip → s ∈ ci_skip_choices) →
  (ci getcwd os_environ os_call os_shell py_strip comment_prefixes
     this_year skip t).1 = Done () →
  ∃ new before,
    (ci getcwd os_environ os_call os_shell py_strip comment_prefixes
       this_year skip t).2 = t ++ new ∧
    actions new = before ++ doc_plan.
Proof.
  intros Hskip Hdone.
  destruct (follows_ci getcwd os_environ os_call os_shell py_strip
              comment_prefixes this_year skip t) as (new & E & _ & D).
  exists new. eexists. split; [done|]. rewrite (D () Hdone).
  unfold ci_plan. rewrite (bool_decide_eq_false_2 ("doc" ∈ skip)).
  - rewrite !app_assoc. reflexivity.
  - intros Hin. apply Hskip in Hin. unfold ci_skip_choices in Hin.
    rewrite !elem_of_cons in Hin.
    destruct Hin as [?|[?|[?|[?|Hnil]]]]; try discriminate.
    by apply elem_of_nil in Hnil.
Qed.

(** X17: [tests] starts one pytest run; without a filter, and with the
    empty string as filter, it measures coverage; with a non-empty filter
    it passes [-k filter] and drops the coverage option. *)
Theorem tests_filter_drops_coverage (filter : option string)
    (t : list event) :
  ∃ argv,
    (tests getcwd os_environ os_call filter t).2 =
      t ++ [Stderr ("$ " +:+ String.concat " " argv);
            Call argv
              (Some (<[ "PYTHONPATH" :=
                          getcwd +:+ ":" +:+
                          default "" (os_environ !! "PYTHONPATH") ]>
                       os_environ))] ∧
    (filter = None ∨ filter = Some "" →
     argv = ["python"; "-m"; "pytest"; "unit_scaling";
             "--cov=unit_scaling"]) ∧
    (∀ f, filter = Some f → f ≠ "" →
     argv = ["python"; "-m"; "pytest"; "unit_scaling"; "-k"; f]).
Proof.
  unfold tests. rewrite run_eq. cbv zeta. cbn [snd].
  eexists. split; [by rewrite <- app_assoc|]. split.
  - by intros [-> | ->].
  - intros f -> Hf. unfold truthy. by rewrite (eqb_of_neq _ _ Hf).
Qed.

(** X18: every command [format] starts carries [--check] exactly when
    [check] is set, and isort is started only after black. *)
Theorem format_check_flag (check : bool) (t : list event) :
  ∃ new,
    (format getcwd os_environ os_call check t).2 = t ++ new ∧
    actions new `prefix_of` format_plan check ∧
    (∀ argv, ACall argv ∈ actions new →
             ("--check" ∈ argv ↔ check = true)).
Proof.
  destruct (follows_format getcwd os_environ os_call check t)
    as (new & E & P & _).
  exists new. split; [done|]. split; [done|].
  intros argv Hin. eapply elem_of_prefix in Hin; [|exact P].
  assert (Hroots : "--check" ∉ PYTHON_ROOTS).
  { unfold PYTHON_ROOTS. rewrite !not_elem_of_cons.
    repeat split; try discriminate. apply not_elem_of_nil. }
  unfold format_plan in Hin. rewrite !elem_of_cons in Hin.
  destruct Hin as [Ha|[Ha|Hnil]]; [| |by apply elem_of_nil in Hnil];
    injection Ha as ->; destruct check; simpl; split; try done.
  - intros _. do 3 apply list_elem_of_further. apply list_elem_of_here.
  - rewrite !elem_of_cons. intros [?|[?|[?|?]]]; try discriminate.
    exfalso. by apply Hroots.
  - intros _. do 3 apply list_elem_of_further. apply list_elem_of_here.
  - rewrite !elem_of_cons. intros [?|[?|[?|?]]]; try discriminate.
    exfalso. by apply Hroots.
Qed.

(** X19: [doc] ignores the status of its [rm]: whatever [rm] returns,
    [make] is started next, and [doc] returns exactly when [make]
    returns 0.  Unlike the commands started through [run], [rm] inherits
    the environment unchanged. *)
Theorem doc_ignores_rm_status (t : list event) (code : Z) :
  os_call t ["rm"; "-r"; "docs/generated"; "docs/_build"] = Returned code →
  let t1 := t ++ [Call ["rm"; "-r"; "docs/generated"; "docs/_build"] None;
                  Stderr "$ make -C docs html"] in
  ∃ env,
    (doc getcwd os_environ os_call t).2 =
      t1 ++ [Call ["make"; "-C"; "docs"; "html"] (Some env)] ∧
    ((doc getcwd os_environ os_call t).1 = Done () ↔
     os_call t1 ["make"; "-C"; "docs"; "html"] = Returned 0%Z).
Proof.
  intros Hrm. cbv zeta. unfold doc, subprocess_call, mbind, script_bind.
  rewrite Hrm. cbn [fst snd]. rewrite run_eq. cbv zeta. cbn [fst snd].
  change (omap _ [Some "make"; Some "-C"; Some "docs"; Some "html"])
    with ["make"; "-C"; "docs"; "html"].
  change ("$ " +:+ String.concat " " ["make"; "-C"; "docs"; "html"])
    with "$ make -C docs html".
  rewrite <- (app_assoc t [_] [_]). cbn [app].
  eexists. split; [reflexivity|].
  destruct (os_call (t ++ _) _) as [c|e]; [|by split].
  destruct (Z.eqb_spec c 0) as [->|Hne]; [by split|].
  split; [discriminate|]. intros [= ->]. done.
Qed.

End LauncherFailures.

(** * Instances of the further properties *)

Lemma fan_in_helper_unread_witness :
  mup_type readout ≠ Some "weight" ∧
  ref_scale_fn None readout =
    lr_scale_func_sgd (num:=R) ref_lr_scale_for_depth failing_fan_in
      None readout.
Proof.
  assert (Hr : mup_type readout ≠ Some "weight") by discriminate.
  split; [exact Hr|].
  exact (fan_in_helper_unread (num:=R) ref_lr_scale_for_depth
           ref_get_fan_in failing_fan_in None readout (or_introl Hr)).
Defined.

Lemma bias_norm_reads_first_dimension_witness :
  shape bias_matrix = [3; 7]%Z ∧
  ref_scale_fn None bias_matrix = Ok (1 * 3)%R.
Proof.
  split; [reflexivity|].
  exact (bias_norm_reads_first_dimension (num:=R) ref_lr_scale_for_depth
           ref_get_fan_in None bias_matrix "bias" 1%R
           eq_refl (or_introl eq_refl) eq_refl).
Defined.


Lemma weight_multiplier_monotone_witness :
  ∃ a1 a2 b1 b2 : R,
    ref_scale_fn None lin1 = Ok a1 ∧
    ref_scale_fn None lin2 = Ok a2 ∧
    ref_scale_fn (Some "to_output_scale") lin1 = Ok b1 ∧
    ref_scale_fn (Some "to_output_scale") lin2 = Ok b2 ∧
    (a2 < a1)%R ∧ (b1 < b2)%R.
Proof.
  assert (Hs : (0 < 1)%R) by lra.
  assert (Hn : (0 < 5 < 7)%Z) by lia.
  exact (weight_multiplier_monotone ref_lr_scale_for_depth ref_get_fan_in
           lin1 lin2 1%R 5%Z 7%Z eq_refl eq_refl eq_refl eq_refl
           eq_refl eq_refl Hs Hn).
Defined.

Lemma zero_fan_in_weight_witness :
  ref_get_fan_in empty_fan_in_weight = Ok 0%Z ∧
  ref_scale_fn None empty_fan_in_weight = Raise ZeroDivisionError ∧
  ref_scale_fn (Some "to_output_scale") empty_fan_in_weight =
    Ok (1 * 0)%R.
Proof.
  split; [reflexivity|].
  exact (zero_fan_in_weight ref_lr_scale_for_depth ref_get_fan_in
           empty_fan_in_weight 1%R eq_refl eq_refl eq_refl).
Defined.

Lemma surplus_multipliers_ignored_witness :
  gen_param_groups model_c base_lr_b (lr_mods_b ++ [2%R]) =
    gen_param_groups model_c base_lr_b lr_mods_b.
Proof.
  assert (Hlen : length model_c ≤ length lr_mods_b) by (simpl; lia).
  exact (surplus_multipliers_ignored model_c base_lr_b lr_mods_b [2%R]
           Hlen).
Defined.

Lemma gen_param_groups_app_witness :
  gen_param_groups ([lin1] ++ [lin2; readout]) base_lr_b
    (take 1 lr_mods_b ++ drop 1 lr_mods_b) =
  gen_param_groups [lin1] base_lr_b (take 1 lr_mods_b) ++
  gen_param_groups [lin2; readout] base_lr_b (drop 1 lr_mods_b).
Proof.
  exact (gen_param_groups_app [lin1] [lin2; readout] base_lr_b
           (take 1 lr_mods_b) (drop 1 lr_mods_b) eq_refl).
Defined.

Lemma gen_param_groups_keys_witness :
  ∃ g : gmap string (value R),
    g ∈ gen_param_groups model_c base_lr_b lr_mods_b ∧
    dom g = ({[ "params"; "lr" ]} : gset string) ∧
    g !! "weight_decay" = None.
Proof.
  assert (Hsome : gen_param_groups model_c base_lr_b lr_mods_b !! 0%nat =
                  Some ({[ "params" := VParams [lin1];
                           "lr" := VNum (base_lr_b * (7 * Rpower 5 (/ 2)))%R ]}
                          : gmap string (value R))) by reflexivity.
  pose proof (list_elem_of_lookup_2 _ _ _ Hsome) as Hin.
  destruct (gen_param_groups_keys model_c base_lr_b lr_mods_b _ Hin)
    as (Hdom & _ & Hwd).
  eexists. split; [exact Hin|]. split; [exact Hdom | exact Hwd].
Defined.

Lemma cell14_from_cell12_witness :
  ∃ t12 t14 : list R,
    cell12_lr_mods 5 7 11 = Ok t12 ∧
    cell14_lr_mods 5 7 11 = Ok t14 ∧
    t14 = zip_with Rmult t12
            [(Rpower 11 (/ 2) / 7)%R; (Rpower 11 (/ 2) / 7)%R; 1%R].
Proof.
  exact (cell14_from_cell12 5 7 11 eq_refl eq_refl eq_refl).
Defined.



Lemma cli_skip_keeps_doc_witness :
  (ci "/repo" ∅ calm_call calm_shell (λ s, s) (λ _, ["#"]) "2023"
     ci_skip_choices []).1 = Done () ∧
  ∃ new before,
    (ci "/repo" ∅ calm_call calm_shell (λ s, s) (λ _, ["#"]) "2023"
       ci_skip_choices []).2 = [] ++ new ∧
    actions new = before ++ doc_plan.
Proof.
  split; [reflexivity|].
  exact (cli_skip_keeps_doc "/repo" ∅ calm_call calm_shell (λ s, s)
           (λ _, ["#"]) "2023" ci_skip_choices [] (λ s Hs, Hs) eq_refl).
Defined.

Lemma doc_ignores_rm_status_witness :
  calm_call [] ["rm"; "-r"; "docs/generated"; "docs/_build"] = Returned 1%Z ∧
  (doc "/repo" ∅ calm_call []).1 = Done ().
Proof.
  split; [reflexivity|].
  destruct (doc_ignores_rm_status "/repo" ∅ calm_call [] 1%Z eq_refl)
    as (env & _ & Hdone).
  apply Hdone. reflexivity.
Defined.

Section CopyrightCheck.
Variable os_shell : list event → string → os_result string.
Variable py_strip : string → string.
Variable comment_prefixes : string → list string.
Variable this_year : string.

(** X20: [copyright] starts its pipeline once; it returns when the
    stripped output is empty and leaves with status 1 when it is not, the
    template lines being printed after the pipeline and only then. *)
Theorem copyright_fails_iff_output (t : list event) (raw : string) :
  os_shell (t ++ [Stderr ("$ " +:+ copyright_command)]) copyright_command =
    Returned raw →
  ((copyright os_shell py_strip comment_prefixes this_year t).1 = Done ()
   ↔ py_strip raw = "") ∧
  ((copyright os_shell py_strip comment_prefixes this_year t).1 = SysExit 1
   ↔ py_strip raw ≠ "") ∧
  ∃ new,
    (copyright os_shell py_strip comment_prefixes this_year t).2 =
      t ++ new ∧
    actions new = [AShell copyright_command] ∧
    (py_strip raw = "" → ∀ line, Stdout line ∉ new).
Proof.
  intros Hsh. rewrite copyright_eq. revert Hsh.
  generalize copyright_command. intros cmd Hsh. cbv zeta. rewrite Hsh.
  destruct (String.eqb_spec (py_strip raw) "") as [Hempty|Hne];
    cbn [fst snd].
  - split; [by split|]. split; [by split|].
    exists [Stderr ("$ " +:+ cmd); Shell cmd].
    split; [by rewrite <- app_assoc|]. split; [done|].
    intros _ line Hin. rewrite !elem_of_cons in Hin.
    destruct Hin as [?|[?|Hnil]]; try discriminate.
    by apply elem_of_nil in Hnil.
  - split; [by split|]. split; [by split|].
    eexists. split.
    { rewrite <- !app_assoc. reflexivity. }
    split; [|done]. simpl. by rewrite actions_prints.
Qed.

End CopyrightCheck.

Lemma copyright_fails_iff_output_witness :
  (copyright calm_shell (λ s, s) (λ _, ["#"]) "2023" []).1 = Done ().
Proof.
  destruct (copyright_fails_iff_output calm_shell (λ s, s) (λ _, ["#"])
              "2023" [] "" eq_refl) as (Hdone & _ & _).
  apply Hdone. reflexivity.
Defined.
